(** * ai-xml-doc-generator: the function locator, the signature extractor and
      the comment formatter of [src/extension.ts]

    A shallow embedding of [detectFunctionAtCursor], [parseFunctionFromText]
    and the string construction of [insertDocumentation], together with the
    fragment of the ECMAScript regular-expression semantics their
    regular expressions need. *)

From Stdlib Require Import String Ascii.
From Stdlib Require Import List NArith ZArith Bool Lia.
Import ListNotations.

Set Implicit Arguments.

(** ** JavaScript strings

    A JavaScript string is a sequence of UTF-16 code units.  A code unit is
    kept as a number; every character the source names in a literal or in a
    regular expression is below 128. *)

Definition char := N.
Definition jstring := list char.

Fixpoint str (s : string) : jstring :=
  match s with
  | EmptyString => []
  | String a s' => N_of_ascii a :: str s'
  end.

Definition chr (a : ascii) : char := N_of_ascii a.

(** The double quote, code unit 34. *)
Definition dquote : char := 34%N.

Definition char_eqb (a b : char) : bool := N.eqb a b.

Fixpoint jstring_eqb (a b : jstring) : bool :=
  match a, b with
  | [], [] => true
  | x :: a', y :: b' => char_eqb x y && jstring_eqb a' b'
  | _, _ => false
  end.

(** [\s] of a regular expression without the [u] flag, which is also what
    [String.prototype.trim] strips: WhiteSpace and LineTerminator. *)
Definition is_space (c : char) : bool :=
  ((9 <=? c) && (c <=? 13) || (c =? 32) || (c =? 160) || (c =? 5760)
   || (8192 <=? c) && (c <=? 8202) || (c =? 8232) || (c =? 8233)
   || (c =? 8239) || (c =? 8287) || (c =? 12288) || (c =? 65279))%N.

(** [\w]: [A-Za-z0-9_]. *)
Definition is_word (c : char) : bool :=
  ((65 <=? c) && (c <=? 90) || (97 <=? c) && (c <=? 122)
   || (48 <=? c) && (c <=? 57) || (c =? 95))%N.

(** [[^x]]: every code unit but [x]. *)
Definition is_not (x : ascii) (c : char) : bool := negb (char_eqb c (chr x)).

(** [s.includes(c)] for a one-character needle. *)
Definition includes (c : char) (s : jstring) : bool := existsb (char_eqb c) s.

(** [s.trim()]. *)
Fixpoint trimStart (s : jstring) : jstring :=
  match s with
  | c :: s' => if is_space c then trimStart s' else s
  | [] => []
  end.

Definition trimEnd (s : jstring) : jstring := rev (trimStart (rev s)).

Definition trim (s : jstring) : jstring := trimEnd (trimStart s).

(** [s.split(sep)] for a one-character separator: the pieces between the
    occurrences of [sep]; the array is never empty. *)
Fixpoint split (sep : char) (s : jstring) : list jstring :=
  match s with
  | [] => [[]]
  | c :: s' =>
      if char_eqb c sep then [] :: split sep s'
      else match split sep s' with
           | piece :: rest => (c :: piece) :: rest
           | [] => [[c]]
           end
  end.

(** ** Values and exceptions

    An array or match element that is absent reads as [undefined]; calling a
    method on [undefined], and [lineAt] outside the document, throw. *)
Inductive jsval :=
| JUndefined
| JStr (s : jstring).

Inductive outcome (A : Type) :=
| Throws
| Returns (a : A).
Arguments Throws {A}.
Arguments Returns {A} a.

Definition bind {A B} (x : outcome A) (f : A -> outcome B) : outcome B :=
  match x with
  | Throws => Throws
  | Returns a => f a
  end.

Notation "x <- e ;; k" := (bind e (fun x => k))
  (at level 61, e at next level, right associativity).

(** The receiver of a method call: a string, or a TypeError. *)
Definition receiver (v : jsval) : outcome jstring :=
  match v with
  | JStr s => Returns s
  | JUndefined => Throws
  end.

(** [a[i]] on an array of strings. *)
Definition elem (a : list jstring) (i : nat) : jsval :=
  match nth_error a i with
  | Some s => JStr s
  | None => JUndefined
  end.

(** [a || b] on values that are strings or undefined: the empty string and
    [undefined] are falsy. *)
Definition js_or (a b : jsval) : jsval :=
  match a with
  | JStr (_ :: _) => a
  | _ => b
  end.

(** [a !== s] against a string literal. *)
Definition strict_neq (a : jsval) (s : jstring) : bool :=
  match a with
  | JStr x => negb (jstring_eqb x s)
  | JUndefined => true
  end.

(** ** Regular expressions

    The constructs the source's patterns use.  Quantifiers are greedy
    and, but for [?], sit on character classes only. *)
Inductive regex :=
| Eps
| Bol                                  (* ^ without the m flag *)
| Chr (c : char)
| Cls (p : char -> bool)
| Star (p : char -> bool)              (* p* *)
| Seq (r1 r2 : regex)
| Alt (r1 r2 : regex)
| Grp (n : nat) (r : regex).           (* the n-th capturing group *)

Definition Opt (r : regex) : regex := Alt r Eps.
Definition Plus (p : char -> bool) : regex := Seq (Cls p) (Star p).
Definition Lit (s : string) : regex :=
  fold_right (fun c r => Seq (Chr c) r) Eps (str s).

Declare Scope regex_scope.
Delimit Scope regex_scope with re.
Bind Scope regex_scope with regex.
Infix ";;;" := Seq (at level 45, right associativity) : regex_scope.
Infix "|||" := Alt (at level 50, left associativity) : regex_scope.

(** The words of a regular expression when matching starts at index [i] of
    the input (only [^] looks at [i]). *)
Fixpoint lang (r : regex) (i : nat) (w : jstring) : Prop :=
  match r with
  | Eps => w = []
  | Bol => i = 0 /\ w = []
  | Chr c => w = [c]
  | Cls p => exists c, w = [c] /\ p c = true
  | Star p => forallb p w = true
  | Seq r1 r2 =>
      exists w1 w2, w = w1 ++ w2 /\ lang r1 i w1 /\ lang r2 (i + length w1) w2
  | Alt r1 r2 => lang r1 i w \/ lang r2 i w
  | Grp _ r' => lang r' i w
  end.

(** [r] matches somewhere in [text]. *)
Definition Occurs (r : regex) (text : jstring) : Prop :=
  exists pre w post, text = pre ++ w ++ post /\ lang r (length pre) w.

(** *** The backtracking matcher

    As in ECMA-262, a pattern is a matcher over a state (end index and
    captures) and a continuation; here the state also carries the input
    that is left. *)
Definition captures := list (nat * jstring).

Fixpoint capture (n : nat) (c : captures) : jsval :=
  match c with
  | [] => JUndefined
  | (k, s) :: c' => if Nat.eqb k n then JStr s else capture n c'
  end.

Section Matcher.
Variable R : Type.
Definition continuation := nat -> jstring -> captures -> option R.

Fixpoint star (p : char -> bool) (i : nat) (s : jstring) (c : captures)
    (k : continuation) : option R :=
  match s with
  | a :: s' =>
      if p a then
        match star p (S i) s' c k with
        | Some r => Some r
        | None => k i s c
        end
      else k i s c
  | [] => k i s c
  end.

Fixpoint matcher (r : regex) (i : nat) (s : jstring) (c : captures)
    (k : continuation) : option R :=
  match r with
  | Eps => k i s c
  | Bol => if Nat.eqb i 0 then k i s c else None
  | Chr a =>
      match s with
      | b :: s' => if char_eqb b a then k (S i) s' c else None
      | [] => None
      end
  | Cls p =>
      match s with
      | b :: s' => if p b then k (S i) s' c else None
      | [] => None
      end
  | Star p => star p i s c k
  | Seq r1 r2 => matcher r1 i s c (fun j s' c' => matcher r2 j s' c' k)
  | Alt r1 r2 =>
      match matcher r1 i s c k with
      | Some x => Some x
      | None => matcher r2 i s c k
      end
  | Grp n r' =>
      matcher r' i s c (fun j s' c' => k j s' ((n, firstn (j - i) s) :: c'))
  end.
End Matcher.

(** The result of [RegExp.prototype.exec]: [index], element 0 and the
    captures. *)
Record MatchResult := {
  index : nat;
  whole : jstring;
  groups : captures
}.

(** [m[n]]. *)
Definition group (n : nat) (m : MatchResult) : jsval :=
  match n with
  | 0 => JStr (whole m)
  | _ => capture n (groups m)
  end.

(** [exec] without the g and y flags: the first start index, from 0 upward,
    at which the pattern matches. *)
Fixpoint exec_from (r : regex) (pos : nat) (s : jstring) : option MatchResult :=
  match matcher r pos s [] (fun j _ c => Some (j, c)) with
  | Some (j, c) =>
      Some {| index := pos; whole := firstn (j - pos) s; groups := c |}
  | None =>
      match s with
      | [] => None
      | _ :: s' => exec_from r (S pos) s'
      end
  end.

Definition exec (r : regex) (text : jstring) : option MatchResult :=
  exec_from r 0 text.

(** [re.test(text)]. *)
Definition test (r : regex) (text : jstring) : bool :=
  match exec r text with
  | Some _ => true
  | None => false
  end.

(** Matching with the captures it leaves: [captured r i w c c'] when [w] is
    a word of [r] at index [i] and the groups passed on the way turn the
    captures [c] into [c']. *)
Fixpoint captured (r : regex) (i : nat) (w : jstring) (c c' : captures) : Prop :=
  match r with
  | Eps => w = [] /\ c' = c
  | Bol => i = 0 /\ w = [] /\ c' = c
  | Chr a => w = [a] /\ c' = c
  | Cls p => (exists a, w = [a] /\ p a = true) /\ c' = c
  | Star p => forallb p w = true /\ c' = c
  | Seq r1 r2 =>
      exists w1 w2 c1, w = w1 ++ w2 /\ captured r1 i w1 c c1
                       /\ captured r2 (i + length w1) w2 c1 c'
  | Alt r1 r2 => captured r1 i w c c' \/ captured r2 i w c c'
  | Grp n r' => exists c1, captured r' i w c c1 /\ c' = (n, w) :: c1
  end.

(** Patterns without a capturing group. *)
Fixpoint groupless (r : regex) : bool :=
  match r with
  | Seq r1 r2 | Alt r1 r2 => groupless r1 && groupless r2
  | Grp _ _ => false
  | _ => true
  end.

(** ** The patterns of the source

    Each is quoted from [src/extension.ts]; in the quotation a blank parts a
    star from a closing parenthesis that follows it. *)

Local Open Scope regex_scope.

(** The first declaration pattern,
    "/^\s*(export\s+)?(const|function|let|var)\s+(\w+)\s*=?\s*(?:async\s* )?\([^)]*\)\s*(?::\s*\w+\s* )?(?:=>|{)/". *)
Definition patternA : regex :=
  Bol ;;; Star is_space ;;;
  Opt (Grp 1 (Lit "export" ;;; Plus is_space)) ;;;
  Grp 2 (Lit "const" ||| Lit "function" ||| Lit "let" ||| Lit "var") ;;;
  Plus is_space ;;; Grp 3 (Plus is_word) ;;; Star is_space ;;;
  Opt (Lit "=") ;;; Star is_space ;;;
  Opt (Lit "async" ;;; Star is_space) ;;;
  Lit "(" ;;; Star (is_not ")") ;;; Lit ")" ;;; Star is_space ;;;
  Opt (Lit ":" ;;; Star is_space ;;; Plus is_word ;;; Star is_space) ;;;
  (Lit "=>" ||| Lit "{").

(** The second declaration pattern,
    "/^\s*(export\s+)?(?:async\s+)?function\s+(\w+)\s*\([^)]*\)/". *)
Definition patternB : regex :=
  Bol ;;; Star is_space ;;;
  Opt (Grp 1 (Lit "export" ;;; Plus is_space)) ;;;
  Opt (Lit "async" ;;; Plus is_space) ;;;
  Lit "function" ;;; Plus is_space ;;; Grp 2 (Plus is_word) ;;;
  Star is_space ;;; Lit "(" ;;; Star (is_not ")") ;;; Lit ")".

Definition functionPatterns : list regex := [patternA; patternB].

(** The two alternatives of the name pattern,
    "/(?:function|const|let|var)\s+(\w+)|(\w+)\s*(?:=\s*(?:async\s* )?\(|:\s*\()/". *)
Definition keywordName : regex :=
  (Lit "function" ||| Lit "const" ||| Lit "let" ||| Lit "var") ;;;
  Plus is_space ;;; Grp 1 (Plus is_word).

Definition assignTail : regex :=
  Star is_space ;;;
  ((Lit "=" ;;; Star is_space ;;; Opt (Lit "async" ;;; Star is_space) ;;; Lit "(")
   ||| (Lit ":" ;;; Star is_space ;;; Lit "(")).

Definition assignTarget : regex := Grp 2 (Plus is_word) ;;; assignTail.

Definition namePattern : regex := keywordName ||| assignTarget.

(** The parameter list, "/\(([^)]* )\)/". *)
Definition paramsPattern : regex :=
  Lit "(" ;;; Grp 1 (Star (is_not ")")) ;;; Lit ")".

(** The return type, "/\):\s*(\w+(?:<[^>]+>)?)/". *)
Definition returnPattern : regex :=
  Lit "):" ;;; Star is_space ;;;
  Grp 1 (Plus is_word ;;; Opt (Lit "<" ;;; Plus (is_not ">") ;;; Lit ">")).

(** The indentation, "/^\s*/". *)
Definition indentPattern : regex := Bol ;;; Star is_space.

Local Close Scope regex_scope.

(** ** The signature extractor *)

Record FunctionInfo := {
  name : jsval;
  params : list jstring;
  returnType : jsval;
  body : jstring
}.

(** [p => p.split(':')[0].split('=')[0].trim()] *)
Definition paramName (p : jstring) : outcome jstring :=
  beforeColon <- receiver (elem (split (chr ":") p) 0) ;;
  beforeEquals <- receiver (elem (split (chr "=") beforeColon) 0) ;;
  Returns (trim beforeEquals).

Fixpoint mapM {A B} (f : A -> outcome B) (l : list A) : outcome (list B) :=
  match l with
  | [] => Returns []
  | a :: l' => b <- f a ;; bs <- mapM f l' ;; Returns (b :: bs)
  end.

Definition parseFunctionFromText (text : jstring) : outcome FunctionInfo :=
  let nameMatch := exec namePattern text in
  let name :=
    match nameMatch with
    | Some m => js_or (group 1 m) (group 2 m)
    | None => JStr (str "unknown")
    end in
  let paramsMatch := exec paramsPattern text in
  let paramsStr :=
    match paramsMatch with
    | Some m => group 1 m
    | None => JStr []
    end in
  paramsStr <- receiver paramsStr ;;
  params <- mapM paramName
              (filter (fun p => Nat.ltb 0 (length p))
                 (map trim (split (chr ",") paramsStr))) ;;
  let returnMatch := exec returnPattern text in
  let returnType :=
    match returnMatch with
    | Some m => group 1 m
    | None => JStr (str "void")
    end in
  Returns {| name := name; params := params; returnType := returnType;
             body := text |}.

(** ** The boundary locator *)

(** A document is its lines; [lineAt] throws outside of them. *)
Definition TextDocument := list jstring.

Definition lineCount (document : TextDocument) : nat := length document.

Definition lineAt (document : TextDocument) (i : nat) : outcome jstring :=
  match nth_error document i with
  | Some lineText => Returns lineText
  | None => Throws
  end.

Definition nl : char := 10%N.
Definition lbrace : char := chr "{".
Definition rbrace : char := chr "}".

(** The backward loop, [for (let i = cursorLine; i >= Math.max(0, cursorLine - 20); i--)],
    by the number of iterations that are left; the result is
    [(startLine, foundFunction)]. *)
Fixpoint searchBackwards (document : TextDocument) (steps i startLine : nat)
    : outcome (nat * bool) :=
  match steps with
  | 0 => Returns (startLine, false)
  | S steps' =>
      lineText <- lineAt document i ;;
      if existsb (fun pattern => test pattern lineText) functionPatterns
      then Returns (i, true)
      else searchBackwards document steps' (i - 1) startLine
  end.

(** The iterations of the backward loop from [cursorLine]. *)
Definition lookback (cursorLine : nat) : nat :=
  cursorLine - Nat.max 0 (cursorLine - 20) + 1.

(** [for (const char of lineText) { if (char === '{') braceCount++; if (char === '}') braceCount--; }]
    (a brace is one code unit and no part of a surrogate pair, so the walk
    by code points counts what the walk by code units counts). *)
Definition countBrace (braceCount : Z) (c : char) : Z :=
  let braceCount := if char_eqb c lbrace then (braceCount + 1)%Z else braceCount in
  if char_eqb c rbrace then (braceCount - 1)%Z else braceCount.

Definition countBraces (braceCount : Z) (lineText : jstring) : Z :=
  fold_left countBrace lineText braceCount.

(** The variables of the forward loop. *)
Record ScanState := {
  braceCount : Z;
  endLine : nat;
  functionText : jstring
}.

(** How the forward loop was left, and at which [i]. *)
Inductive LoopExit :=
| BraceBalanced (i : nat)      (* the first break *)
| SizeLimit (i : nat)          (* the second break *)
| EndOfDocument (i : nat).     (* i < document.lineCount failed *)

(** What the forward loop leaves behind; [linesRead] counts its calls of
    [lineAt]. *)
Record ScanResult := {
  final : ScanState;
  exit : LoopExit;
  linesRead : nat
}.

(** The forward loop, [for (let i = startLine; i < document.lineCount; i++)],
    by [document.lineCount - i]. *)
Fixpoint scanForward (document : TextDocument) (startLine remaining i : nat)
    (st : ScanState) (read : nat) : outcome ScanResult :=
  match remaining with
  | 0 => Returns {| final := st; exit := EndOfDocument i; linesRead := read |}
  | S remaining' =>
      lineText <- lineAt document i ;;
      let functionText := functionText st ++ lineText ++ [nl] in
      let braceCount := countBraces (braceCount st) lineText in
      if Z.eqb braceCount 0 && includes lbrace lineText then
        Returns {| final := {| braceCount := braceCount; endLine := i;
                               functionText := functionText |};
                   exit := BraceBalanced i; linesRead := S read |}
      else
        let st' := {| braceCount := braceCount; endLine := endLine st;
                      functionText := functionText |} in
        if Nat.ltb 100 (i - startLine) then
          Returns {| final := st'; exit := SizeLimit i; linesRead := S read |}
        else scanForward document startLine remaining' (S i) st' (S read)
  end.

Definition findFunctionEnd (document : TextDocument) (startLine : nat)
    : outcome ScanResult :=
  scanForward document startLine (lineCount document - startLine) startLine
    {| braceCount := 0; endLine := startLine; functionText := [] |} 0.

Definition detectFunctionAtCursor (document : TextDocument) (cursorLine : nat)
    : outcome (option (FunctionInfo * nat)) :=
  found <- searchBackwards document (lookback cursorLine) cursorLine cursorLine ;;
  let '(startLine, foundFunction) := found in
  if negb foundFunction then Returns None
  else
    scan <- findFunctionEnd document startLine ;;
    functionInfo <- parseFunctionFromText (functionText (final scan)) ;;
    Returns (Some (functionInfo, startLine)).

(** ** The comment formatter *)

(** The text [insertDocumentation] builds. *)
Definition paramTag (indent param : jstring) : jstring :=
  indent ++ str " * <param name=" ++ [dquote] ++ param ++ [dquote]
         ++ str "></param>" ++ [nl].

Fixpoint paramTags (indent : jstring) (params : list jstring) : jstring :=
  match params with
  | [] => []
  | param :: rest =>
      (if Nat.ltb 0 (length param) && negb (jstring_eqb param (str "..."))
       then paramTag indent param else [])
      ++ paramTags indent rest
  end.

Definition buildDoc (indent summary : jstring) (functionInfo : FunctionInfo)
    : jstring :=
  let doc := indent ++ str "/**" ++ [nl] in
  let doc := doc ++ indent ++ str " * <summary>" ++ [nl] in
  let doc := doc ++ indent ++ str " * " ++ summary ++ [nl] in
  let doc := doc ++ indent ++ str " * </summary>" ++ [nl] in
  let doc := doc ++ paramTags indent (params functionInfo) in
  let doc :=
    if strict_neq (returnType functionInfo) (str "void")
    then doc ++ indent ++ str " * <returns></returns>" ++ [nl]
    else doc in
  doc ++ indent ++ str " */" ++ [nl].

(** [insertDocumentation] up to the edit it hands to the editor: the
    position [(line, 0)] and the text. *)
Definition insertDocumentation (document : TextDocument) (line : nat)
    (summary : jstring) (functionInfo : FunctionInfo)
    : outcome (nat * nat * jstring) :=
  lineText <- lineAt document line ;;
  let indent :=                 (* lineText.match(...)?.[0] || '' *)
    match exec indentPattern lineText with
    | Some m => match whole m with [] => [] | _ :: _ => whole m end
    | None => []
    end in
  Returns (line, 0, buildDoc indent summary functionInfo).

(** ** Vocabulary of the statements *)

(** The three fields the extractor computes. *)
Definition extractName (text : jstring) : jsval :=
  match exec namePattern text with
  | Some m => js_or (group 1 m) (group 2 m)
  | None => JStr (str "unknown")
  end.

Definition extractReturnType (text : jstring) : jsval :=
  match exec returnPattern text with
  | Some m => group 1 m
  | None => JStr (str "void")
  end.

(** The lines of a text that ends every line with a line feed. *)
Fixpoint linesOf (s : jstring) : list jstring :=
  match s with
  | [] => []
  | c :: s' =>
      if char_eqb c nl then [] :: linesOf s'
      else match linesOf s' with
           | l :: ls => (c :: l) :: ls
           | [] => [[c]]
           end
  end.

(** The lines [a], ..., [b - 1] of a document. *)
Definition linesBetween (document : TextDocument) (a b : nat) : list jstring :=
  firstn (b - a) (skipn a document).

(** Lines put together the way the forward loop accumulates them. *)
Definition joinLines (ls : list jstring) : jstring :=
  flat_map (fun lineText => lineText ++ [nl]) ls.

(** The occurrences of a character. *)
Definition occurrences (c : char) (s : jstring) : nat :=
  length (filter (fun x => char_eqb x c) s).

(** The running brace count after line [j] of a scan from [startLine]:
    opening minus closing braces over the lines [startLine], ..., [j]. *)
Definition runningBraceCount (document : TextDocument) (startLine j : nat) : Z :=
  let chars := concat (linesBetween document startLine (S j)) in
  (Z.of_nat (occurrences lbrace chars) - Z.of_nat (occurrences rbrace chars))%Z.

(** The first break's condition at line [j]: the running count is zero and
    line [j] itself holds an opening brace. *)
Definition balancedAt (document : TextDocument) (startLine j : nat) : Prop :=
  runningBraceCount document startLine j = 0%Z
  /\ exists lineText, nth_error document j = Some lineText
                      /\ includes lbrace lineText = true.

(** What a forward scan from [startLine] leaves behind, by the way the loop
    was left. *)
Definition ScanPost (document : TextDocument) (startLine : nat)
    (r : ScanResult) : Prop :=
  functionText (final r) =
    joinLines (linesBetween document startLine (startLine + linesRead r))
  /\ match exit r with
     | BraceBalanced e =>
         startLine <= e < lineCount document /\ e <= startLine + 101
         /\ balancedAt document startLine e
         /\ (forall j, startLine <= j < e -> ~ balancedAt document startLine j)
         /\ endLine (final r) = e /\ linesRead r = S e - startLine
     | SizeLimit e =>
         e = startLine + 101 /\ e < lineCount document
         /\ (forall j, startLine <= j <= e -> ~ balancedAt document startLine j)
         /\ endLine (final r) = startLine /\ linesRead r = 102
     | EndOfDocument e =>
         e = lineCount document /\ e <= startLine + 101
         /\ (forall j, startLine <= j < e -> ~ balancedAt document startLine j)
         /\ endLine (final r) = startLine /\ linesRead r = e - startLine
     end.

(** A line one of the two declaration patterns matches. *)
Definition declarationLine (lineText : jstring) : Prop :=
  Occurs patternA lineText \/ Occurs patternB lineText.

(** ** Documents and signatures of the scenarios *)

(** Two functions, each closed by a brace on a line of its own. *)
Definition twoFunctions : TextDocument :=
  [ str "function add(a, b) {";
    str "  return a + b;";
    str "}";
    str "function size(s): number {";
    str "  return s.length;";
    str "}" ].

(** A declaration followed by 149 lines without a brace. *)
Definition longDocument : TextDocument :=
  str "function f()" :: repeat (str "// filler") 149.

(** A declaration 25 lines above the last line. *)
Definition farDeclaration : TextDocument :=
  str "function f() {" :: repeat (str "  g();") 25.

(** A declaration that never opens a brace. *)
Definition noBraces : TextDocument :=
  [ str "function f(a)"; str "  return a" ].

(** The signature of the text [function add(a, b) { return a + b; }]. *)
Definition addSignature (body : jstring) : FunctionInfo :=
  {| name := JStr (str "add"); params := [str "a"; str "b"];
     returnType := JStr (str "void"); body := body |}.

(** The lines of the comment for [addSignature]. *)
Definition addComment : list jstring :=
  [ str "/**";
    str " * <summary>";
    str " * Adds two numbers.";
    str " * </summary>";
    str " * <param name=" ++ [dquote] ++ str "a" ++ [dquote] ++ str "></param>";
    str " * <param name=" ++ [dquote] ++ str "b" ++ [dquote] ++ str "></param>";
    str " */" ].

(** A function closed on a line of its own, then a one-line function. *)
Definition arrowDocument : TextDocument :=
  [ str "const f = (x) => {";
    str "  return x;";
    str "};";
    str "const g = (y) => { return y; };" ].

(** ** Vocabulary of the further properties *)

(** The longest prefix of characters in a class, and what follows it. *)
Fixpoint takeWhile (p : char -> bool) (s : jstring) : jstring :=
  match s with
  | c :: s' => if p c then c :: takeWhile p s' else []
  | [] => []
  end.

Fixpoint dropWhile (p : char -> bool) (s : jstring) : jstring :=
  match s with
  | c :: s' => if p c then dropWhile p s' else s
  | [] => []
  end.

(** The parameters that get a tag: [param && param !== '...']. *)
Definition documented (param : jstring) : bool :=
  Nat.ltb 0 (length param) && negb (jstring_eqb param (str "...")).

Definition paramLine (param : jstring) : jstring :=
  str " * <param name=" ++ [dquote] ++ param ++ [dquote] ++ str "></param>".

(** The lines of a comment block, before indentation. *)
Definition commentLines (summary : jstring) (functionInfo : FunctionInfo)
    : list jstring :=
  [ str "/**"; str " * <summary>"; str " * " ++ summary; str " * </summary>" ]
  ++ map paramLine (filter documented (params functionInfo))
  ++ (if strict_neq (returnType functionInfo) (str "void")
      then [str " * <returns></returns>"] else [])
  ++ [ str " */" ].

(** The text of a parameter before its first [:] or [=]. *)
Definition beforeDelimiter (p : jstring) : jstring :=
  takeWhile (fun c => negb (char_eqb c (chr "=")))
    (takeWhile (fun c => negb (char_eqb c (chr ":"))) p).

(** The parameter names read off the text between the parentheses. *)
Definition paramsOf (inner : jstring) : list jstring :=
  map (fun p => trim (beforeDelimiter p))
    (filter (fun p => Nat.ltb 0 (length p)) (map trim (split (chr ",") inner))).

(** The keywords of the patterns. *)
Definition keywords : list jstring :=
  [str "function"; str "const"; str "let"; str "var"].

(** An optional modifier: nothing, or the word and the whitespace after it. *)
Definition modifier (word : string) (m : jstring) : Prop :=
  m = [] \/ exists sp, m = str word ++ sp /\ sp <> []
                       /\ forallb is_space sp = true.

(** A text that begins with a declaration of [id]: whitespace, an optional
    [export], an optional [async], a keyword, whitespace and the whole
    identifier [id]. *)
Definition declares (text id : jstring) : Prop :=
  exists ws E A kw sp rest,
    text = ws ++ E ++ A ++ kw ++ sp ++ id ++ rest
    /\ forallb is_space ws = true
    /\ modifier "export" E /\ modifier "async" A
    /\ In kw keywords
    /\ sp <> [] /\ forallb is_space sp = true
    /\ id <> [] /\ forallb is_word id = true
    /\ match rest with [] => True | c :: _ => is_word c = false end.

(** No tail of the word is a keyword. *)
Fixpoint tailsAvoidKeywords (word : jstring) : bool :=
  match word with
  | [] => true
  | _ :: word' =>
      negb (existsb (jstring_eqb word) keywords) && tailsAvoidKeywords word'
  end.

(** Pieces put together with a separator between them. *)
Fixpoint join (sep : char) (pieces : list jstring) : jstring :=
  match pieces with
  | [] => []
  | piece :: rest =>
      match rest with
      | [] => piece
      | _ :: _ => piece ++ sep :: join sep rest
      end
  end.

(** A parameter as it is written between two commas: whitespace, the
    identifier [id], and then either whitespace only, or whitespace and an
    annotation or default value that starts with [:] or [=]; no comma and
    no closing parenthesis inside. *)
Definition writes (piece id : jstring) : Prop :=
  exists lead ann,
    piece = lead ++ id ++ ann
    /\ forallb is_space lead = true
    /\ id <> [] /\ forallb is_word id = true
    /\ (forallb is_space ann = true
        \/ exists sp d t, ann = sp ++ d :: t /\ forallb is_space sp = true
                          /\ (d = chr ":" \/ d = chr "="))
    /\ forallb (fun c => negb (char_eqb c (chr ","))) piece = true
    /\ forallb (is_not ")") piece = true.

(** ** The command: summary request and insertion

    The editor, the settings and the completion service are outside of the
    source: what the code reads from them is a parameter, what it does to
    them is recorded, in order, as an effect. *)

(** [a || 'literal'] for a string that may be undefined. *)
Definition or_default (a : jsval) (literal : jstring) : jstring :=
  match a with
  | JStr (c :: s) => c :: s
  | _ => literal
  end.

(** The settings of the section [aiDocGenerator], as [config.get] returns
    them. *)
Record Configuration := {
  openaiApiKey : jsval;
  model : jsval
}.

Record ChatMessage := {
  role : jstring;
  content : jstring
}.

(** The argument of [openai.chat.completions.create]; the temperature 0.3
    is kept as the fraction 3/10. *)
Record ChatRequest := {
  requestModel : jstring;
  messages : list ChatMessage;
  temperature : N * N;
  max_tokens : N
}.

(** The part of the response the code reads; an absent or null field is
    [None]. *)
Record ResponseMessage := { responseContent : option jstring }.
Record Choice := { message : option ResponseMessage }.
Record ChatResponse := { choices : list Choice }.

Inductive ProgressLocation := Notification.

Inductive Effect :=
| ShowErrorMessage (text : jstring)
| ShowInformationMessage (text : jstring)
| WithProgress (location : ProgressLocation) (title : jstring)
    (cancellable : bool)
| CreateCompletion (apiKey : jstring) (request : ChatRequest)
| ApplyEdit (line character : nat) (text : jstring).

(** A computation with its effects so far and its outcome. *)
Definition action (A : Type) : Type := (list Effect * outcome A)%type.

Definition done {A} (a : A) : action A := ([], Returns a).

Definition emit (e : Effect) : action unit := ([e], Returns tt).

Definition lift {A} (x : outcome A) : action A := ([], x).

Definition andThen {A B} (x : action A) (f : A -> action B) : action B :=
  match x with
  | (effects, Throws) => (effects, Throws)
  | (effects, Returns a) =>
      let '(effects', b) := f a in (effects ++ effects', b)
  end.

Notation "x <~ e ;; k" := (andThen e (fun x => k))
  (at level 61, e at next level, right associativity).

Definition summaryPrompt (functionInfo : FunctionInfo) : jstring :=
  str "Analyze this JavaScript/TypeScript function and generate a concise summary for XML documentation."
  ++ [nl; nl] ++ str "Function:" ++ [nl] ++ body functionInfo ++ [nl; nl]
  ++ str "Provide ONLY a brief summary (1-2 sentences) describing what this function does. Do not include parameter descriptions or return value descriptions. Focus on the function's purpose and behavior.".

Definition summaryRequest (model : jstring) (functionInfo : FunctionInfo)
    : ChatRequest :=
  {| requestModel := model;
     messages :=
       [ {| role := str "system";
            content := str "You are a technical documentation expert. Provide concise, clear function summaries suitable for XML documentation comments." |};
         {| role := str "user"; content := summaryPrompt functionInfo |} ];
     temperature := (3%N, 10%N);
     max_tokens := 150%N |}.

(** [response.choices[0]?.message?.content?.trim() || 'Generated summary'] *)
Definition summaryOf (response : ChatResponse) : jstring :=
  or_default
    match nth_error (choices response) 0 with
    | Some choice =>
        match message choice with
        | Some m =>
            match responseContent m with
            | Some text => JStr (trim text)
            | None => JUndefined
            end
        | None => JUndefined
        end
    | None => JUndefined
    end
    (str "Generated summary").

Section Command.
(** The completion service: the response to a request made with a key, or
    a failure. *)
Variable create : jstring -> ChatRequest -> outcome ChatResponse.

Definition generateSummaryWithChatGPT (config : Configuration)
    (functionInfo : FunctionInfo) : action jstring :=
  let apiKey := openaiApiKey config in
  let model := or_default (model config) (str "gpt-4") in
  match apiKey with
  | JStr (c :: key) =>
      let request := summaryRequest model functionInfo in
      _ <~ emit (CreateCompletion (c :: key) request) ;;
      response <~ lift (create (c :: key) request) ;;
      done (summaryOf response)
  | _ => lift Throws             (* !apiKey *)
  end.

(** The selection, as far as the code reads it, and the text
    [document.getText(selection)] returns for it. *)
Record Selection := {
  isEmpty : bool;
  activeLine : nat;
  selectionStartLine : nat;
  selectedText : jstring
}.

(** [generateDocumentation]; the edit [insertDocumentation] describes is
    applied here. *)
Definition generateDocumentation (config : Configuration)
    (document : TextDocument) (selection : Selection) : action unit :=
  target <~
    (if isEmpty selection then
       result <~ lift (detectFunctionAtCursor document (activeLine selection)) ;;
       match result with
       | None =>
           _ <~ emit (ShowErrorMessage
                        (str "Place cursor on a function or select code to document")) ;;
           done None
       | Some (functionInfo, startLine) => done (Some (functionInfo, startLine))
       end
     else
       functionInfo <~ lift (parseFunctionFromText (selectedText selection)) ;;
       done (Some (functionInfo, selectionStartLine selection))) ;;
  match target with
  | None => done tt              (* return *)
  | Some (functionInfo, insertLine) =>
      _ <~ emit (WithProgress Notification
                   (str "Generating documentation...") false) ;;
      summary <~ generateSummaryWithChatGPT config functionInfo ;;
      edit <~ lift (insertDocumentation document insertLine summary functionInfo) ;;
      let '(line, character, text) := edit in
      _ <~ emit (ApplyEdit line character text) ;;
      emit (ShowInformationMessage (str "Documentation generated successfully!"))
  end.
End Command.



(** A service that answers every request with one choice. *)
Definition answering (text : jstring) (apiKey : jstring) (request : ChatRequest)
    : outcome ChatResponse :=
  Returns {| choices :=
               [ {| message := Some {| responseContent := Some text |} |} ] |}.

Definition configured : Configuration :=
  {| openaiApiKey := JStr (str "sk-test"); model := JUndefined |}.

(** * The regular-expression fragment: the matcher against the language *)

Lemma jstring_eqb_eq (a b : jstring) : jstring_eqb a b = true <-> a = b.
Proof.
  revert b; induction a as [|x a IH]; intros [|y b]; simpl; split; intro H;
    try reflexivity; try discriminate.
  - apply andb_true_iff in H as [Hx Hab]. apply N.eqb_eq in Hx.
    apply IH in Hab. now subst.
  - injection H as -> ->. apply andb_true_iff; split.
    + apply N.eqb_refl.
    + now apply IH.
Qed.

Lemma captured_lang (r : regex) :
  forall i w c c', captured r i w c c' -> lang r i w.
Proof.
  induction r as [| | a | p | p | r1 IH1 r2 IH2 | r1 IH1 r2 IH2 | n r IH];
    simpl; intros i w c c' H.
  - tauto.
  - tauto.
  - tauto.
  - tauto.
  - tauto.
  - destruct H as (w1 & w2 & c1 & -> & H1 & H2). exists w1, w2. eauto.
  - destruct H as [H | H]; eauto.
  - destruct H as (c1 & H & _). eauto.
Qed.

Section MatcherCorrect.
Variable R : Type.
Implicit Type k : continuation R.

Lemma star_sound p : forall s i c k res,
  star p i s c k = Some res ->
  exists w s', s = w ++ s' /\ forallb p w = true
               /\ k (i + length w) s' c = Some res.
Proof.
  induction s as [|a s IH]; simpl; intros i c k res H.
  - exists [], []. rewrite Nat.add_0_r. auto.
  - destruct (p a) eqn:Hp.
    + destruct (star p (S i) s c k) as [x|] eqn:Hs.
      * injection H as ->. apply IH in Hs as (w & s' & -> & Hw & Hk).
        exists (a :: w), s'. simpl. rewrite Hp, Hw.
        rewrite Nat.add_succ_r. auto.
      * exists [], (a :: s). rewrite Nat.add_0_r. auto.
    + exists [], (a :: s). rewrite Nat.add_0_r. auto.
Qed.

Lemma star_complete p : forall w i s' c k,
  forallb p w = true ->
  k (i + length w) s' c <> None ->
  star p i (w ++ s') c k <> None.
Proof.
  induction w as [|a w IH]; simpl; intros i s' c k Hw Hk.
  - rewrite Nat.add_0_r in Hk.
    destruct s' as [|b s']; simpl; auto.
    destruct (p b); auto.
    destruct (star p (S i) s' c k); auto. discriminate.
  - apply andb_true_iff in Hw as [Ha Hw]. rewrite Ha.
    rewrite Nat.add_succ_r in Hk.
    specialize (IH (S i) s' c k Hw Hk).
    destruct (star p (S i) (w ++ s') c k); [discriminate | contradiction].
Qed.

(** Whatever the matcher returns comes from its continuation, called after
    a word of the pattern with the captures of that match. *)
Lemma matcher_sound (r : regex) : forall i s c k res,
  matcher r i s c k = Some res ->
  exists w s' c', s = w ++ s' /\ captured r i w c c'
                  /\ k (i + length w) s' c' = Some res.
Proof.
  induction r as [| | a | p | p | r1 IH1 r2 IH2 | r1 IH1 r2 IH2 | n r IH];
    simpl; intros i s c k res H.
  - exists [], s, c. rewrite Nat.add_0_r. auto.
  - destruct (Nat.eqb i 0) eqn:Hi; [|discriminate].
    apply Nat.eqb_eq in Hi. exists [], s, c. rewrite Nat.add_0_r. auto.
  - destruct s as [|b s]; [discriminate|].
    destruct (char_eqb b a) eqn:Hb; [|discriminate].
    apply N.eqb_eq in Hb. subst b.
    exists [a], s, c. simpl. rewrite Nat.add_1_r. auto.
  - destruct s as [|b s]; [discriminate|].
    destruct (p b) eqn:Hb; [|discriminate].
    exists [b], s, c. simpl. rewrite Nat.add_1_r. eauto 6.
  - apply star_sound in H as (w & s' & -> & Hw & Hk).
    exists w, s', c. auto.
  - apply IH1 in H as (w1 & s1 & c1 & -> & H1 & H).
    apply IH2 in H as (w2 & s2 & c2 & -> & H2 & H).
    exists (w1 ++ w2), s2, c2. rewrite <- app_assoc, length_app, Nat.add_assoc.
    split; [reflexivity|]. split; [|exact H]. exists w1, w2, c1. auto.
  - destruct (matcher r1 i s c k) as [x|] eqn:H1.
    + injection H as ->. apply IH1 in H1 as (w & s' & c' & -> & Hc & Hk).
      exists w, s', c'. auto.
    + apply IH2 in H as (w & s' & c' & -> & Hc & Hk).
      exists w, s', c'. auto.
  - apply IH in H as (w & s' & c' & -> & Hc & Hk).
    replace (i + length w - i) with (length w) in Hk by lia.
    rewrite firstn_app, Nat.sub_diag, firstn_all in Hk. simpl in Hk.
    rewrite app_nil_r in Hk.
    exists w, s', ((n, w) :: c'). eauto.
Qed.

(** A word of the pattern followed by an input the continuation accepts
    is accepted. *)
Lemma matcher_complete (r : regex) : forall i w s' c k,
  lang r i w ->
  (forall c', k (i + length w) s' c' <> None) ->
  matcher r i (w ++ s') c k <> None.
Proof.
  induction r as [| | a | p | p | r1 IH1 r2 IH2 | r1 IH1 r2 IH2 | n r IH];
    simpl; intros i w s' c k Hw Hk.
  - subst w. simpl in *. rewrite Nat.add_0_r in Hk. auto.
  - destruct Hw as [-> ->]. simpl in *. auto.
  - subst w. simpl in *. unfold char_eqb. rewrite N.eqb_refl.
    rewrite Nat.add_1_r in Hk. auto.
  - destruct Hw as (a & -> & Ha). simpl in *. rewrite Ha.
    rewrite Nat.add_1_r in Hk. auto.
  - apply star_complete; auto.
  - destruct Hw as (w1 & w2 & -> & H1 & H2). rewrite <- app_assoc.
    apply IH1; [exact H1|]. intro c1. apply IH2; [exact H2|].
    intro c2. rewrite <- Nat.add_assoc, <- length_app. auto.
  - destruct Hw as [H | H].
    + specialize (IH1 i w s' c k H Hk).
      destruct (matcher r1 i (w ++ s') c k); [discriminate | contradiction].
    + destruct (matcher r1 i (w ++ s') c k); [discriminate|].
      apply IH2; auto.
  - apply IH; auto.
Qed.
End MatcherCorrect.

(** [exec] returns the leftmost match, and returns one whenever the pattern
    occurs. *)
Lemma exec_from_sound (r : regex) : forall s pos m,
  exec_from r pos s = Some m ->
  exists pre w post,
    s = pre ++ w ++ post /\ index m = pos + length pre /\ whole m = w
    /\ captured r (pos + length pre) w [] (groups m)
    /\ forall pre' w' post', s = pre' ++ w' ++ post' ->
         lang r (pos + length pre') w' -> length pre <= length pre'.
Proof.
  induction s as [|a s IH]; intros pos m H; simpl in H.
  - destruct (matcher r pos [] [] (fun j _ c => Some (j, c))) as [[j c]|] eqn:Hm;
      [|discriminate].
    injection H as <-. apply matcher_sound in Hm as (w & s' & c' & Hs & Hc & Hk).
    injection Hk as <- <-. symmetry in Hs. apply app_eq_nil in Hs as [-> ->].
    exists [], [], []. simpl. rewrite Nat.add_0_r in *. repeat split; auto.
    + apply firstn_nil.
    + intros; lia.
  - destruct (matcher r pos (a :: s) [] (fun j _ c => Some (j, c)))
      as [[j c]|] eqn:Hm.
    + injection H as <-. apply matcher_sound in Hm as (w & s' & c' & Hs & Hc & Hk).
      injection Hk as <- <-. exists [], w, s'. simpl.
      rewrite Nat.add_0_r in *. rewrite Hs.
      replace (pos + length w - pos) with (length w) by lia.
      rewrite firstn_app, Nat.sub_diag, firstn_all. simpl. rewrite app_nil_r.
      repeat split; auto. intros; lia.
    + apply IH in H as (pre & w & post & -> & Hi & Hw & Hc & Hleft).
      exists (a :: pre), w, post. simpl.
      rewrite Nat.add_succ_r. repeat split; auto.
      intros [|b pre'] w' post' Hs Hl.
      * exfalso. simpl in Hs, Hl. rewrite Nat.add_0_r in Hl.
        apply (matcher_complete (R := nat * captures) r pos w' post' []
                 (fun j _ c => Some (j, c))) in Hl.
        -- rewrite <- Hs in Hl. congruence.
        -- intros; discriminate.
      * simpl in Hs. injection Hs as -> Hs. simpl.
        apply le_n_S. apply (Hleft pre' w' post' Hs).
        simpl in Hl. now rewrite Nat.add_succ_r in Hl.
Qed.

Lemma exec_from_complete (r : regex) : forall pre pos w post,
  lang r (pos + length pre) w ->
  exec_from r pos (pre ++ w ++ post) <> None.
Proof.
  induction pre as [|a pre IH]; intros pos w post Hl.
  - simpl in Hl. rewrite Nat.add_0_r in Hl. simpl app.
    assert (Hm : matcher r pos (w ++ post) [] (fun j _ c => Some (j, c)) <> None).
    { apply matcher_complete; [exact Hl | intros; discriminate]. }
    destruct (w ++ post) as [|b s]; simpl;
      destruct (matcher r pos _ [] (fun j _ c => Some (j, c))) as [[j c]|];
      try discriminate; contradiction.
  - simpl. destruct (matcher r pos _ [] (fun j _ c => Some (j, c))) as [[j c]|];
      [discriminate|].
    apply IH. simpl in Hl. now rewrite Nat.add_succ_r in Hl.
Qed.

Lemma exec_Some (r : regex) (text : jstring) (m : MatchResult) :
  exec r text = Some m ->
  exists pre post,
    text = pre ++ whole m ++ post /\ index m = length pre
    /\ captured r (length pre) (whole m) [] (groups m)
    /\ forall pre' w' post', text = pre' ++ w' ++ post' ->
         lang r (length pre') w' -> length pre <= length pre'.
Proof.
  intro H. apply exec_from_sound in H as (pre & w & post & -> & Hi & <- & Hc & Hl).
  exists pre, post. auto.
Qed.

Lemma exec_None_iff (r : regex) (text : jstring) :
  exec r text = None <-> ~ Occurs r text.
Proof.
  split.
  - intros H (pre & w & post & -> & Hl).
    now apply (exec_from_complete r pre 0 w post Hl).
  - intro H. destruct (exec r text) as [m|] eqn:Hm; [|reflexivity].
    exfalso. apply H. apply exec_Some in Hm as (pre & post & -> & _ & Hc & _).
    exists pre, (whole m), post. split; [reflexivity|].
    eapply captured_lang; eauto.
Qed.

Lemma test_true_iff (r : regex) (text : jstring) :
  test r text = true <-> Occurs r text.
Proof.
  unfold test. destruct (exec r text) as [m|] eqn:Hm.
  - split; [intros _|reflexivity].
    apply exec_Some in Hm as (pre & post & -> & _ & Hc & _).
    exists pre, (whole m), post. split; [reflexivity|].
    eapply captured_lang; eauto.
  - apply exec_None_iff in Hm. split; [discriminate | contradiction].
Qed.

(** A pattern without a group leaves the captures as they are. *)
Lemma captured_groupless (r : regex) : forall i w c c',
  groupless r = true -> captured r i w c c' -> c' = c.
Proof.
  induction r as [| | a | p | p | r1 IH1 r2 IH2 | r1 IH1 r2 IH2 | n r IH];
    simpl; intros i w c c' Hg H; try tauto; try discriminate.
  - apply andb_true_iff in Hg as [Hg1 Hg2].
    destruct H as (w1 & w2 & c1 & _ & H1 & H2).
    apply IH1 in H1; auto. apply IH2 in H2; auto. congruence.
  - apply andb_true_iff in Hg as [Hg1 Hg2]. destruct H as [H | H]; eauto.
Qed.

Lemma captured_Seq_l (r1 r2 : regex) i w c c' :
  groupless r1 = true -> captured (Seq r1 r2) i w c c' ->
  exists w1 w2, w = w1 ++ w2 /\ lang r1 i w1
                /\ captured r2 (i + length w1) w2 c c'.
Proof.
  intros Hg (w1 & w2 & c1 & -> & H1 & H2).
  pose proof (@captured_groupless _ _ _ _ _ Hg H1). subst c1.
  exists w1, w2. eauto using captured_lang.
Qed.

Lemma captured_Seq_r (r1 r2 : regex) i w c c' :
  groupless r2 = true -> captured (Seq r1 r2) i w c c' ->
  exists w1 w2, w = w1 ++ w2 /\ captured r1 i w1 c c'
                /\ lang r2 (i + length w1) w2.
Proof.
  intros Hg (w1 & w2 & c1 & -> & H1 & H2).
  pose proof (@captured_groupless _ _ _ _ _ Hg H2). subst c'.
  exists w1, w2. eauto using captured_lang.
Qed.

Lemma captured_Grp (n : nat) (r : regex) i w c c' :
  groupless r = true -> captured (Grp n r) i w c c' ->
  c' = (n, w) :: c /\ lang r i w.
Proof.
  intros Hg (c1 & H & ->).
  pose proof (@captured_groupless _ _ _ _ _ Hg H). subst c1.
  eauto using captured_lang.
Qed.

Lemma lang_Plus (p : char -> bool) i w :
  lang (Plus p) i w <-> w <> [] /\ forallb p w = true.
Proof.
  simpl. split.
  - intros (w1 & w2 & -> & (a & -> & Ha) & Hw). simpl. rewrite Ha, Hw.
    split; [discriminate | reflexivity].
  - intros [Hn Hw]. destruct w as [|a w]; [contradiction|].
    simpl in Hw. apply andb_true_iff in Hw as [Ha Hw].
    exists [a], w. eauto.
Qed.

(** * The extractor *)

(** Scenarios A and B and property P3 of the specification, evaluated. *)
Example scenarioA :
  parseFunctionFromText (str "function add(a, b) { return a + b; }")
  = Returns {| name := JStr (str "add"); params := [str "a"; str "b"];
               returnType := JStr (str "void");
               body := str "function add(a, b) { return a + b; }" |}.
Proof. vm_compute. reflexivity. Qed.

Example scenarioB :
  parseFunctionFromText
    (str "const mul = (a: number, b: number): number => { return a*b; }")
  = Returns {| name := JStr (str "mul"); params := [str "a"; str "b"];
               returnType := JStr (str "number");
               body := str "const mul = (a: number, b: number): number => { return a*b; }" |}.
Proof. vm_compute. reflexivity. Qed.

Example parameterOrder :
  exists functionInfo,
    parseFunctionFromText (str "(a, b: number, c = 5)") = Returns functionInfo
    /\ params functionInfo = [str "a"; str "b"; str "c"].
Proof. eexists. split; vm_compute; reflexivity. Qed.

(** What the name pattern captures: group 1 after a keyword, or group 2
    before the tail of an assignment or of a typed property. *)
Lemma namePattern_captured i w c :
  captured namePattern i w [] c ->
  (lang keywordName i w /\
   exists id, c = [(1, id)] /\ id <> [] /\ forallb is_word id = true)
  \/ (exists id tail, w = id ++ tail /\ c = [(2, id)] /\ id <> []
        /\ forallb is_word id = true /\ lang assignTail (i + length id) tail).
Proof.
  intros [H | H].
  - left. split; [eapply captured_lang; exact H|].
    apply captured_Seq_l in H as (w1 & w2 & -> & _ & H); [|reflexivity].
    apply captured_Seq_l in H as (w3 & w4 & -> & _ & H); [|reflexivity].
    apply captured_Grp in H as [-> H]; [|reflexivity].
    apply lang_Plus in H as [Hn Hw]. eauto.
  - right.
    apply captured_Seq_r in H as (id & tail & -> & H & Ht); [|reflexivity].
    apply captured_Grp in H as [-> H]; [|reflexivity].
    apply lang_Plus in H as [Hn Hw]. exists id, tail. auto.
Qed.

Lemma paramsPattern_captured i w c :
  captured paramsPattern i w [] c ->
  exists inner, c = [(1, inner)] /\ w = str "(" ++ inner ++ str ")"
                /\ forallb (is_not ")") inner = true.
Proof.
  intro H.
  apply captured_Seq_l in H as (w1 & w2 & -> & H1 & H); [|reflexivity].
  apply captured_Seq_r in H as (w3 & w4 & -> & H & H4); [|reflexivity].
  apply captured_Grp in H as [-> H]; [|reflexivity].
  simpl in H1. destruct H1 as (? & ? & -> & -> & ->).
  simpl in H4. destruct H4 as (? & ? & -> & -> & ->).
  exists w3. auto.
Qed.

Lemma returnPattern_captured i w c :
  captured returnPattern i w [] c ->
  exists type, c = [(1, type)] /\ type <> [].
Proof.
  intro H.
  apply captured_Seq_l in H as (w1 & w2 & -> & _ & H); [|reflexivity].
  apply captured_Seq_l in H as (w3 & w4 & -> & _ & H); [|reflexivity].
  apply captured_Grp in H as [-> H]; [|reflexivity].
  exists w4. split; [reflexivity|].
  destruct H as (u & v & -> & Hu & _). apply lang_Plus in Hu as [Hn _].
  destruct u; [contradiction | discriminate].
Qed.

Lemma split_cons (sep : char) (s : jstring) :
  exists piece rest, split sep s = piece :: rest.
Proof.
  induction s as [|c s (piece & rest & IH)]; simpl; eauto.
  destruct (char_eqb c sep); eauto. rewrite IH. eauto.
Qed.

Lemma paramName_returns (p : jstring) : exists n, paramName p = Returns n.
Proof.
  unfold paramName.
  destruct (split_cons (chr ":") p) as (a & ? & ->).
  unfold elem. cbn [nth_error receiver bind].
  destruct (split_cons (chr "=") a) as (b & ? & ->).
  cbn [nth_error receiver bind]. eauto.
Qed.

Lemma mapM_returns {A B} (f : A -> outcome B) (l : list A) :
  (forall a, exists b, f a = Returns b) -> exists bs, mapM f l = Returns bs.
Proof.
  intro Hf. induction l as [|a l (bs & IH)]; simpl; eauto.
  destruct (Hf a) as (b & ->). simpl. rewrite IH. simpl. eauto.
Qed.

Lemma parse_returns (text : jstring) :
  exists ps, parseFunctionFromText text =
             Returns {| name := extractName text; params := ps;
                        returnType := extractReturnType text; body := text |}.
Proof.
  unfold parseFunctionFromText.
  assert (Hp : exists s,
             match exec paramsPattern text with
             | Some m => group 1 m
             | None => JStr []
             end = JStr s).
  { destruct (exec paramsPattern text) as [m|] eqn:Hm; [|eauto].
    apply exec_Some in Hm as (pre & post & _ & _ & Hc & _).
    apply paramsPattern_captured in Hc as (inner & Hc & _).
    unfold group. rewrite Hc. simpl. eauto. }
  destruct Hp as (s & ->). cbn [receiver bind].
  destruct (mapM_returns paramName
              (filter (fun p => Nat.ltb 0 (length p))
                 (map trim (split (chr ",") s))) paramName_returns)
    as (ps & ->).
  cbn [bind]. eauto.
Qed.

Lemma extractName_matched (text : jstring) (m : MatchResult) :
  exec namePattern text = Some m ->
  exists id, extractName text = JStr id /\ id <> []
             /\ forallb is_word id = true.
Proof.
  intro Hm. unfold extractName. rewrite Hm.
  apply exec_Some in Hm as (pre & post & _ & _ & Hc & _).
  apply namePattern_captured in Hc
    as [(_ & id & Hc & Hn & Hw) | (id & tail & _ & Hc & Hn & Hw & _)];
    unfold group; rewrite Hc; simpl; destruct id; try contradiction; eauto.
Qed.

Lemma extractReturnType_matched (text : jstring) (m : MatchResult) :
  exec returnPattern text = Some m ->
  exists type, extractReturnType text = JStr type /\ type <> [].
Proof.
  intro Hm. unfold extractReturnType. rewrite Hm.
  apply exec_Some in Hm as (pre & post & _ & _ & Hc & _).
  apply returnPattern_captured in Hc as (type & Hc & Hn).
  unfold group. rewrite Hc. simpl. eauto.
Qed.

(** * The locator: the forward scan *)

(** The loop's counter is the difference of the two occurrence counts. *)
Lemma countBraces_occurrences (s : jstring) : forall b,
  countBraces b s
  = (b + Z.of_nat (occurrences lbrace s) - Z.of_nat (occurrences rbrace s))%Z.
Proof.
  unfold countBraces, occurrences.
  induction s as [|c s IH]; intro b; simpl; [lia|].
  rewrite IH. unfold countBrace.
  destruct (char_eqb c lbrace) eqn:Hl; destruct (char_eqb c rbrace) eqn:Hr;
    simpl length; lia.
Qed.

Lemma countBraces_app (s t : jstring) (b : Z) :
  countBraces b (s ++ t) = countBraces (countBraces b s) t.
Proof. apply fold_left_app. Qed.

Lemma firstn_snoc {A} (l : list A) : forall n x,
  nth_error l n = Some x -> firstn (S n) l = firstn n l ++ [x].
Proof.
  induction l as [|a l IH]; intros [|n] x H; simpl in *; try discriminate.
  - now injection H as ->.
  - f_equal. now apply IH.
Qed.

Lemma nth_error_skipn {A} (l : list A) : forall a n,
  nth_error (skipn a l) n = nth_error l (a + n).
Proof.
  induction l as [|x l IH]; intros [|a] n; simpl; auto.
  now destruct n.
Qed.

Lemma linesBetween_snoc (document : TextDocument) (a i : nat) (lineText : jstring) :
  a <= i -> nth_error document i = Some lineText ->
  linesBetween document a (S i) = linesBetween document a i ++ [lineText].
Proof.
  intros Hle Hn. unfold linesBetween.
  replace (S i - a) with (S (i - a)) by lia.
  apply firstn_snoc. rewrite nth_error_skipn.
  now replace (a + (i - a)) with i by lia.
Qed.

Lemma linesBetween_empty (document : TextDocument) (a : nat) :
  linesBetween document a a = [].
Proof. unfold linesBetween. now rewrite Nat.sub_diag. Qed.

Lemma joinLines_snoc (ls : list jstring) (lineText : jstring) :
  joinLines (ls ++ [lineText]) = joinLines ls ++ lineText ++ [nl].
Proof.
  unfold joinLines. rewrite flat_map_app. simpl. now rewrite app_nil_r.
Qed.

Lemma runningBraceCount_step (document : TextDocument) (a i : nat)
    (lineText : jstring) :
  a <= i -> nth_error document i = Some lineText ->
  runningBraceCount document a i
  = countBraces (countBraces 0 (concat (linesBetween document a i))) lineText.
Proof.
  intros Hle Hn. unfold runningBraceCount.
  rewrite (linesBetween_snoc document Hle Hn), concat_app. simpl concat.
  rewrite app_nil_r, <- countBraces_app, countBraces_occurrences. lia.
Qed.

Section ForwardScan.
Variable document : TextDocument.
Variable startLine : nat.

Lemma scanForward_spec : forall remaining i st read,
  startLine <= i -> i + remaining = lineCount document ->
  braceCount st = countBraces 0 (concat (linesBetween document startLine i)) ->
  functionText st = joinLines (linesBetween document startLine i) ->
  read = i - startLine ->
  endLine st = startLine ->
  (forall j, startLine <= j < i ->
     ~ balancedAt document startLine j /\ j - startLine <= 100) ->
  exists r, scanForward document startLine remaining i st read = Returns r
            /\ ScanPost document startLine r.
Proof.
  induction remaining as [|remaining IH];
    intros i st read Hle Hlen Hbc Hft Hread Hend Hinv.
  - simpl. eexists; split; [reflexivity|]. unfold ScanPost;
        cbn [final exit linesRead endLine functionText braceCount].
    replace (startLine + read) with i by lia.
    repeat split; auto; try lia.
    + destruct (Nat.eq_dec i startLine); [lia|].
      destruct (Hinv (i - 1)); lia.
    + intros j Hj. now apply Hinv.
  - assert (Hi : i < length document) by (unfold lineCount in Hlen; lia).
    destruct (nth_error document i) as [lineText|] eqn:Hn;
      [|apply nth_error_None in Hn; lia].
    pose proof (runningBraceCount_step document Hle Hn) as Hrun.
    rewrite <- Hbc in Hrun.
    assert (Hprev : i <= startLine + 101).
    { destruct (Nat.eq_dec i startLine); [lia|].
      destruct (Hinv (i - 1)); lia. }
    assert (Hbal : balancedAt document startLine i <->
                   (Z.eqb (countBraces (braceCount st) lineText) 0
                    && includes lbrace lineText = true)).
    { unfold balancedAt. rewrite Hrun, andb_true_iff, Z.eqb_eq. split.
      - intros [H0 (l & Hl & Hinc)]. rewrite Hn in Hl. injection Hl as <-. auto.
      - intros [H0 Hinc]. eauto. }
    simpl. unfold lineAt. rewrite Hn. cbn [bind].
    destruct (Z.eqb (countBraces (braceCount st) lineText) 0
              && includes lbrace lineText) eqn:Hcond.
    + eexists; split; [reflexivity|]. unfold ScanPost;
        cbn [final exit linesRead endLine functionText braceCount].
      replace (startLine + S read) with (S i) by lia.
      rewrite (linesBetween_snoc document Hle Hn), joinLines_snoc, Hft.
      repeat split; auto; try lia.
      * now apply Hbal.
      * intros j Hj. now apply Hinv.
    + assert (Hnb : ~ balancedAt document startLine i).
      { rewrite Hbal. discriminate. }
      destruct (Nat.ltb 100 (i - startLine)) eqn:Hlim.
      * apply Nat.ltb_lt in Hlim.
        eexists; split; [reflexivity|]. unfold ScanPost;
        cbn [final exit linesRead endLine functionText braceCount].
        replace (startLine + S read) with (S i) by lia.
        rewrite (linesBetween_snoc document Hle Hn), joinLines_snoc, Hft.
        repeat split; auto; try lia.
        intros j Hj. destruct (Nat.eq_dec j i); [now subst|].
        apply Hinv. lia.
      * apply Nat.ltb_ge in Hlim.
        apply IH; cbn [braceCount functionText endLine]; try lia.
        -- rewrite (linesBetween_snoc document Hle Hn), concat_app.
           simpl concat. rewrite app_nil_r, countBraces_app. now rewrite Hbc.
        -- rewrite (linesBetween_snoc document Hle Hn), joinLines_snoc.
           now rewrite Hft.
        -- intros j Hj. destruct (Nat.eq_dec j i); [subst; split; auto|].
           apply Hinv. lia.
Qed.

Lemma findFunctionEnd_spec :
  startLine <= lineCount document ->
  exists r, findFunctionEnd document startLine = Returns r
            /\ ScanPost document startLine r.
Proof.
  intro Hle. unfold findFunctionEnd.
  apply scanForward_spec; cbn [braceCount functionText endLine];
    try rewrite linesBetween_empty; try reflexivity; intros; lia.
Qed.

(** The forward scan never throws, reads 102 lines at most and
    accumulates the lines it read. *)
Lemma findFunctionEnd_returns :
  exists r, findFunctionEnd document startLine = Returns r
            /\ linesRead r <= 102
            /\ functionText (final r) =
               joinLines (linesBetween document startLine
                            (startLine + linesRead r)).
Proof.
  destruct (Nat.le_gt_cases startLine (lineCount document)) as [Hle | Hgt].
  - destruct (findFunctionEnd_spec Hle) as (r & Hr & Hft & Hex).
    exists r. split; [exact Hr|]. split; [|exact Hft].
    destruct (exit r); unfold lineCount in *; lia.
  - unfold findFunctionEnd.
    replace (lineCount document - startLine) with 0 by lia.
    eexists; split; [reflexivity|]. cbn [linesRead final functionText].
    split; [lia|]. now rewrite Nat.add_0_r, linesBetween_empty.
Qed.
End ForwardScan.

(** * The locator: the backward search *)

Lemma functionPatterns_test (lineText : jstring) :
  existsb (fun pattern => test pattern lineText) functionPatterns = true
  <-> declarationLine lineText.
Proof.
  unfold functionPatterns, declarationLine. cbn [existsb].
  rewrite orb_false_r, orb_true_iff, !test_true_iff. tauto.
Qed.

Section BackwardSearch.
Variable document : TextDocument.

Lemma searchBackwards_spec : forall steps i startLine,
  i < lineCount document -> steps <= i + 1 ->
  (searchBackwards document steps i startLine = Returns (startLine, false)
   /\ forall j lineText, i + 1 - steps <= j <= i ->
        nth_error document j = Some lineText -> ~ declarationLine lineText)
  \/ (exists found lineText,
        searchBackwards document steps i startLine = Returns (found, true)
        /\ i + 1 - steps <= found <= i
        /\ nth_error document found = Some lineText
        /\ declarationLine lineText
        /\ forall j lineText', found < j <= i ->
             nth_error document j = Some lineText' ->
             ~ declarationLine lineText').
Proof.
  induction steps as [|steps IH]; intros i startLine Hi Hsteps.
  - left. split; [reflexivity|]. intros; lia.
  - unfold lineCount in Hi.
    destruct (nth_error document i) as [lineText|] eqn:Hn;
      [|apply nth_error_None in Hn; lia].
    cbn [searchBackwards]. unfold lineAt. rewrite Hn. cbn [bind].
    destruct (existsb (fun pattern => test pattern lineText) functionPatterns)
      eqn:Hd.
    + right. exists i, lineText. apply functionPatterns_test in Hd.
      repeat split; auto; try lia.
    + assert (Hnd : ~ declarationLine lineText).
      { rewrite <- functionPatterns_test, Hd. discriminate. }
      destruct steps as [|steps].
      * left. split; [reflexivity|]. intros j l Hj Hl.
        assert (j = i) by lia. subst j. congruence.
      * destruct (IH (i - 1) startLine) as
          [[Hs Hnone] | (found & l & Hs & Hr & Hl & Hdecl & Hnear)];
          try (unfold lineCount; lia).
        -- left. split; [exact Hs|]. intros j l Hj Hl.
           destruct (Nat.eq_dec j i); [subst j; congruence|].
           apply (Hnone j); [lia | exact Hl].
        -- right. exists found, l. repeat split; auto; try lia.
           intros j l' Hj Hl'.
           destruct (Nat.eq_dec j i); [subst j; congruence|].
           apply (Hnear j); [lia | exact Hl'].
Qed.

Lemma lookback_window (cursorLine : nat) :
  lookback cursorLine <= cursorLine + 1
  /\ cursorLine + 1 - lookback cursorLine = cursorLine - 20.
Proof. unfold lookback. lia. Qed.
End BackwardSearch.

(** The locator, put together. *)
Lemma detect_spec (document : TextDocument) (cursorLine : nat) :
  cursorLine < lineCount document ->
  (detectFunctionAtCursor document cursorLine = Returns None
   /\ forall j lineText, cursorLine - 20 <= j <= cursorLine ->
        nth_error document j = Some lineText -> ~ declarationLine lineText)
  \/ (exists startLine lineText scan ps,
        cursorLine - 20 <= startLine <= cursorLine
        /\ nth_error document startLine = Some lineText
        /\ declarationLine lineText
        /\ (forall j lineText', startLine < j <= cursorLine ->
              nth_error document j = Some lineText' ->
              ~ declarationLine lineText')
        /\ findFunctionEnd document startLine = Returns scan
        /\ ScanPost document startLine scan
        /\ detectFunctionAtCursor document cursorLine =
           Returns (Some ({| name := extractName (functionText (final scan));
                             params := ps;
                             returnType :=
                               extractReturnType (functionText (final scan));
                             body := functionText (final scan) |},
                          startLine))).
Proof.
  intro Hc. unfold detectFunctionAtCursor.
  destruct (lookback_window cursorLine) as [Hsteps Hlow].
  destruct (@searchBackwards_spec document (lookback cursorLine) cursorLine
              cursorLine Hc Hsteps)
    as [[Hs Hnone] | (found & l & Hs & Hr & Hl & Hdecl & Hnear)];
    rewrite Hs; cbn [bind negb].
  - left. split; [reflexivity|]. intros j lt Hj. apply Hnone. lia.
  - right.
    destruct (@findFunctionEnd_spec document found) as (scan & Hscan & Hpost);
      [lia|].
    destruct (parse_returns (functionText (final scan))) as (ps & Hparse).
    exists found, l, scan, ps. rewrite Hscan. cbn [bind]. rewrite Hparse.
    cbn [bind]. split; [lia|]. split; [exact Hl|]. split; [exact Hdecl|].
    split; [exact Hnear|]. split; [reflexivity|].
    split; [exact Hpost | reflexivity].
Qed.

(** * The properties of the specification *)

Lemma not_Occurs_by_exec (r : regex) (text : jstring) :
  exec r text = None -> ~ Occurs r text.
Proof. apply exec_None_iff. Qed.

Lemma Occurs_by_test (r : regex) (text : jstring) :
  test r text = true -> Occurs r text.
Proof. apply test_true_iff. Qed.

Lemma not_declaration_by_test (lineText : jstring) :
  test patternA lineText = false -> test patternB lineText = false ->
  ~ declarationLine lineText.
Proof.
  intros HA HB [H | H]; apply test_true_iff in H; congruence.
Qed.

(** C4 (P5, lookback bound): for a cursor line of the document, when none of
    the cursor line and the 20 lines above it is matched by a declaration
    pattern, the locator returns null. *)
Theorem detect_null_without_declaration
    (document : TextDocument) (cursorLine : nat) :
  cursorLine < lineCount document ->
  (forall j lineText, cursorLine - 20 <= j <= cursorLine ->
     nth_error document j = Some lineText -> ~ declarationLine lineText) ->
  detectFunctionAtCursor document cursorLine = Returns None.
Proof.
  intros Hc Hnone.
  destruct (detect_spec document Hc)
    as [[Hd _] | (s & l & _ & _ & Hs & Hl & Hdecl & _)]; [exact Hd|].
  exfalso. exact (Hnone s l Hs Hl Hdecl).
Qed.

(** Scenario D: the cursor 25 lines below the only declaration. *)
Lemma detect_null_without_declaration_witness :
  detectFunctionAtCursor farDeclaration 25 = Returns None.
Proof.
  apply detect_null_without_declaration.
  - unfold lineCount. simpl. lia.
  - intros j lineText Hj Hn.
    destruct j as [|j]; [lia|].
    unfold farDeclaration in Hn. cbn [nth_error] in Hn.
    apply nth_error_In, repeat_spec in Hn. subst lineText.
    apply not_declaration_by_test; vm_compute; reflexivity.
Defined.

(** C10: for a cursor line of the document, once a line of the lookback
    window is matched by a declaration pattern the locator returns a
    FunctionInfo and a start line in the window; the FunctionInfo's body is
    the span the forward scan accumulated, and when the first break's
    condition holds at no line the scan ends at the end of the document or
    at the size limit. *)
Theorem detect_found_returns_info
    (document : TextDocument) (cursorLine : nat) :
  cursorLine < lineCount document ->
  (exists j lineText, cursorLine - 20 <= j <= cursorLine
     /\ nth_error document j = Some lineText /\ declarationLine lineText) ->
  exists startLine scan functionInfo,
    detectFunctionAtCursor document cursorLine
      = Returns (Some (functionInfo, startLine))
    /\ cursorLine - 20 <= startLine <= cursorLine
    /\ findFunctionEnd document startLine = Returns scan
    /\ parseFunctionFromText (functionText (final scan)) = Returns functionInfo
    /\ body functionInfo =
       joinLines (linesBetween document startLine (startLine + linesRead scan))
    /\ ((forall j, startLine <= j -> ~ balancedAt document startLine j) ->
        (exit scan = EndOfDocument (lineCount document)
         \/ exit scan = SizeLimit (startLine + 101))
        /\ linesRead scan = Nat.min (lineCount document - startLine) 102).
Proof.
  intros Hc (j & l & Hj & Hl & Hdecl).
  destruct (detect_spec document Hc)
    as [[_ Hnone] | (s & ls & scan & ps & Hs & _ & _ & _ & Hscan & Hpost & Hd)].
  { exfalso. exact (Hnone j l Hj Hl Hdecl). }
  destruct (parse_returns (functionText (final scan))) as (ps' & Hparse).
  eexists s, scan, _. split; [exact Hd|]. split; [exact Hs|].
  split; [exact Hscan|].
  assert (Hps : ps' = ps).
  { unfold detectFunctionAtCursor in Hd.
    destruct (searchBackwards document (lookback cursorLine) cursorLine cursorLine)
      as [|[s' [|]]]; cbn [bind negb] in Hd; try discriminate.
    destruct (findFunctionEnd document s') as [|scan'] eqn:Hscan';
      cbn [bind] in Hd; try discriminate.
    destruct (parseFunctionFromText (functionText (final scan'))) as [|fi] eqn:Hp;
      cbn [bind] in Hd; try discriminate.
    injection Hd as Hfi Hs'. subst s'. rewrite Hscan in Hscan'.
    injection Hscan' as <-. rewrite Hparse in Hp. injection Hp as <-.
    now injection Hfi. }
  subst ps'. split; [exact Hparse|].
  destruct Hpost as [Hft Hex]. split; [exact Hft|].
  intro Hnever. unfold lineCount in *.
  destruct (exit scan) as [e | e | e].
  - exfalso. destruct Hex as (He & _ & Hb & _).
    apply (Hnever e); [lia | exact Hb].
  - destruct Hex as (-> & He & _ & _ & Hread). split; [now right|]. lia.
  - destruct Hex as (-> & He & _ & _ & Hread). split; [now left|]. lia.
Qed.

(** A declaration without any brace, the cursor on the line below it. *)
Lemma detect_found_returns_info_witness :
  exists startLine scan functionInfo,
    detectFunctionAtCursor noBraces 1 = Returns (Some (functionInfo, startLine))
    /\ 1 - 20 <= startLine <= 1
    /\ findFunctionEnd noBraces startLine = Returns scan
    /\ parseFunctionFromText (functionText (final scan)) = Returns functionInfo
    /\ body functionInfo =
       joinLines (linesBetween noBraces startLine (startLine + linesRead scan))
    /\ ((forall j, startLine <= j -> ~ balancedAt noBraces startLine j) ->
        (exit scan = EndOfDocument (lineCount noBraces)
         \/ exit scan = SizeLimit (startLine + 101))
        /\ linesRead scan = Nat.min (lineCount noBraces - startLine) 102).
Proof.
  apply detect_found_returns_info.
  - unfold lineCount. simpl. lia.
  - exists 0, (str "function f(a)"). split; [lia|]. split; [reflexivity|].
    right. apply Occurs_by_test. vm_compute. reflexivity.
Defined.

(** C8: the extractor returns a FunctionInfo for every text, with string
    fields, the name "unknown" when the name pattern matches nowhere and the
    return type "void" when the return-type pattern matches nowhere; the
    locator returns (a result or null) for every document and every cursor
    line of it. *)
Theorem extractor_and_locator_never_throw :
  (forall text, exists n ps rt,
     parseFunctionFromText text =
       Returns {| name := JStr n; params := ps; returnType := JStr rt;
                  body := text |}
     /\ (~ Occurs namePattern text -> n = str "unknown")
     /\ (~ Occurs returnPattern text -> rt = str "void"))
  /\ (forall document cursorLine, cursorLine < lineCount document ->
        exists result, detectFunctionAtCursor document cursorLine = Returns result).
Proof.
  split.
  - intro text. destruct (parse_returns text) as (ps & Hp).
    assert (Hn : exists n, extractName text = JStr n
                           /\ (~ Occurs namePattern text -> n = str "unknown")).
    { destruct (exec namePattern text) as [m|] eqn:Hm.
      - destruct (extractName_matched text Hm) as (id & Hid & _).
        exists id. split; [exact Hid|]. intro Hno.
        apply exec_None_iff in Hno. congruence.
      - unfold extractName. rewrite Hm. eauto. }
    assert (Hr : exists rt, extractReturnType text = JStr rt
                            /\ (~ Occurs returnPattern text -> rt = str "void")).
    { destruct (exec returnPattern text) as [m|] eqn:Hm.
      - destruct (extractReturnType_matched text Hm) as (ty & Hty & _).
        exists ty. split; [exact Hty|]. intro Hno.
        apply exec_None_iff in Hno. congruence.
      - unfold extractReturnType. rewrite Hm. eauto. }
    destruct Hn as (n & Hn & Hn'). destruct Hr as (rt & Hr & Hr').
    exists n, ps, rt. rewrite Hp, Hn, Hr. auto.
  - intros document cursorLine Hc.
    destruct (detect_spec document Hc)
      as [[Hd _] | (s & l & scan & ps & _ & _ & _ & _ & _ & _ & Hd)];
      rewrite Hd; eauto.
Qed.

Lemma extractor_and_locator_never_throw_witness :
  exists result, detectFunctionAtCursor twoFunctions 4 = Returns result.
Proof.
  apply (proj2 extractor_and_locator_never_throw).
  unfold lineCount. simpl. lia.
Defined.

(** C6 (P2, sentinel completeness): a text in which the return-type
    pattern matches nowhere gets the return type "void", and a text in which
    neither alternative of the name pattern matches anywhere gets the name
    "unknown". *)
Theorem sentinels_when_nothing_matches (text : jstring) :
  (~ Occurs returnPattern text ->
   exists functionInfo, parseFunctionFromText text = Returns functionInfo
                        /\ returnType functionInfo = JStr (str "void"))
  /\ (~ Occurs keywordName text -> ~ Occurs assignTarget text ->
      exists functionInfo, parseFunctionFromText text = Returns functionInfo
                           /\ name functionInfo = JStr (str "unknown")).
Proof.
  destruct (parse_returns text) as (ps & Hp). split.
  - intro Hno. eexists; split; [exact Hp|]. cbn [returnType].
    apply exec_None_iff in Hno. unfold extractReturnType. now rewrite Hno.
  - intros Hk Ha. eexists; split; [exact Hp|]. cbn [name].
    assert (Hno : exec namePattern text = None).
    { apply exec_None_iff. intros (pre & w & post & Ht & [Hl | Hl]).
      - apply Hk. exists pre, w, post. auto.
      - apply Ha. exists pre, w, post. auto. }
    unfold extractName. now rewrite Hno.
Qed.

Lemma sentinels_when_nothing_matches_witness :
  (exists functionInfo,
     parseFunctionFromText (str "add(a, b)") = Returns functionInfo
     /\ returnType functionInfo = JStr (str "void"))
  /\ (exists functionInfo,
        parseFunctionFromText (str "add(a, b)") = Returns functionInfo
        /\ name functionInfo = JStr (str "unknown")).
Proof.
  split.
  - apply (proj1 (sentinels_when_nothing_matches (str "add(a, b)"))).
    apply not_Occurs_by_exec. vm_compute. reflexivity.
  - apply (proj2 (sentinels_when_nothing_matches (str "add(a, b)"))).
    + apply not_Occurs_by_exec. vm_compute. reflexivity.
    + apply not_Occurs_by_exec. vm_compute. reflexivity.
Defined.

(** C3, as stated, fails: in [add(a, b)] no keyword occurs and the
    identifier [add] is immediately followed by an opening parenthesis, yet
    the name is "unknown". *)
Lemma name_of_call_counterexample :
  ~ Occurs keywordName (str "add(a, b)")
  /\ str "add(a, b)" = str "add" ++ str "(" ++ str "a, b)"
  /\ forallb is_word (str "add") = true
  /\ exists functionInfo,
       parseFunctionFromText (str "add(a, b)") = Returns functionInfo
       /\ name functionInfo = JStr (str "unknown")
       /\ name functionInfo <> JStr (str "add").
Proof.
  split; [apply not_Occurs_by_exec; vm_compute; reflexivity|].
  split; [reflexivity|]. split; [reflexivity|].
  eexists. split; [vm_compute; reflexivity|]. split; [reflexivity|].
  discriminate.
Qed.

(** C3, amended: in a text where no keyword followed by an identifier
    occurs but some identifier occurs followed, after optional whitespace,
    by [=], optional whitespace, an optional [async] and an opening
    parenthesis, or by [:], optional whitespace and an opening parenthesis,
    the name is the leftmost identifier that is so followed. *)
Theorem name_of_assignment_target (text : jstring) :
  ~ Occurs keywordName text -> Occurs assignTarget text ->
  exists pre id tail post functionInfo,
    text = pre ++ id ++ tail ++ post
    /\ id <> [] /\ forallb is_word id = true
    /\ lang assignTail (length pre + length id) tail
    /\ (forall pre' w' post', text = pre' ++ w' ++ post' ->
          lang assignTarget (length pre') w' -> length pre <= length pre')
    /\ parseFunctionFromText text = Returns functionInfo
    /\ name functionInfo = JStr id.
Proof.
  intros Hk Ha. destruct (parse_returns text) as (ps & Hp).
  destruct (exec namePattern text) as [m|] eqn:Hm.
  - pose proof Hm as Hm'.
    apply exec_Some in Hm' as (pre & post & Ht & _ & Hc & Hleft).
    apply namePattern_captured in Hc
      as [(Hl & _) | (id & tail & Hw & Hc & Hn & Hid & Hl)].
    + exfalso. apply Hk. exists pre, (whole m), post. auto.
    + exists pre, id, tail, post. eexists.
      split; [rewrite Ht, Hw, <- app_assoc; reflexivity|].
      split; [exact Hn|]. split; [exact Hid|]. split; [exact Hl|].
      split; [|split; [exact Hp|]].
      * intros pre' w' post' Ht' Hl'. apply (Hleft pre' w' post' Ht').
        now right.
      * cbn [name]. unfold extractName. rewrite Hm. unfold group.
        rewrite Hc. cbn [capture Nat.eqb js_or]. reflexivity.
  - exfalso. apply exec_None_iff in Hm. apply Hm.
    destruct Ha as (pre & w & post & Ht & Hl). exists pre, w, post.
    split; [exact Ht | now right].
Qed.

Lemma name_of_assignment_target_witness :
  exists pre id tail post functionInfo,
    str "handler = async (req) => {}" = pre ++ id ++ tail ++ post
    /\ id <> [] /\ forallb is_word id = true
    /\ lang assignTail (length pre + length id) tail
    /\ (forall pre' w' post',
          str "handler = async (req) => {}" = pre' ++ w' ++ post' ->
          lang assignTarget (length pre') w' -> length pre <= length pre')
    /\ parseFunctionFromText (str "handler = async (req) => {}")
       = Returns functionInfo
    /\ name functionInfo = JStr id.
Proof.
  apply name_of_assignment_target.
  - apply not_Occurs_by_exec. vm_compute. reflexivity.
  - apply Occurs_by_test. vm_compute. reflexivity.
Defined.

(** C2, as stated, fails: the comment block of Scenario C has seven lines,
    not six. *)
Lemma comment_block_lines_counterexample :
  length (linesOf (buildDoc [] (str "Adds two numbers.")
                     (addSignature (str "function add(a, b) { return a + b; }"))))
  <> 6.
Proof. vm_compute. discriminate. Qed.

(** C2, amended: formatting the summary "Adds two numbers." with the
    signature name "add", parameters "a" and "b", return type "void", at
    zero indentation, produces a 7-line comment block: the opening
    delimiter, the summary open tag, the summary text, the summary close
    tag, one param tag each for "a" and "b", and the closing delimiter; no
    returns tag. *)
Theorem scenarioC_comment_block (body : jstring) :
  buildDoc [] (str "Adds two numbers.") (addSignature body) = joinLines addComment
  /\ linesOf (buildDoc [] (str "Adds two numbers.") (addSignature body))
     = addComment
  /\ length addComment = 7
  /\ ~ In (str " * <returns></returns>") addComment
  /\ parseFunctionFromText (str "function add(a, b) { return a + b; }")
     = Returns (addSignature (str "function add(a, b) { return a + b; }"))
  /\ insertDocumentation [str "function add(a, b) { return a + b; }"] 0
       (str "Adds two numbers.") (addSignature body)
     = Returns (0, 0, joinLines addComment).
Proof.
  split; [reflexivity|]. split; [reflexivity|]. split; [reflexivity|].
  split; [|split; vm_compute; reflexivity].
  intro H. repeat (destruct H as [H | H]; [discriminate|]). exact H.
Qed.

Lemma paramTags_filter (indent : jstring) (ps : list jstring) :
  paramTags indent ps
  = paramTags indent (filter (fun p => Nat.ltb 0 (length p)) ps).
Proof.
  induction ps as [|p ps IH]; [reflexivity|].
  cbn [paramTags filter]. destruct (Nat.ltb 0 (length p)) eqn:Hp.
  - cbn [paramTags]. rewrite Hp. now rewrite IH.
  - cbn [andb app]. exact IH.
Qed.

(** C9: the parameter list of the text [(a, : number)] holds the empty
    string: the piece [: number] is not empty after trimming, passes the
    filter, and stripping the annotation leaves the empty name; the
    formatter emits no param tag for an empty name. *)
Theorem empty_parameter_name_survives :
  (exists functionInfo,
     parseFunctionFromText (str "(a, : number)") = Returns functionInfo
     /\ params functionInfo = [str "a"; []])
  /\ filter (fun p => Nat.ltb 0 (length p))
       (map trim (split (chr ",") (str "a, : number")))
     = [str "a"; str ": number"]
  /\ paramName (str ": number") = Returns []
  /\ (forall indent ps,
        paramTags indent ps
        = paramTags indent (filter (fun p => Nat.ltb 0 (length p)) ps))
  /\ (forall indent, paramTags indent [str "a"; []] = paramTag indent (str "a")).
Proof.
  split; [eexists; split; vm_compute; reflexivity|].
  split; [vm_compute; reflexivity|]. split; [vm_compute; reflexivity|].
  split; [exact paramTags_filter|].
  intro indent. cbn. now rewrite app_nil_r.
Qed.

(** C7, as stated, fails: from a declaration followed by lines without a
    brace the forward scan reads 102 lines, the last one 101 lines beyond
    the declaration line. *)
Lemma scan_cap_counterexample :
  exists r, findFunctionEnd longDocument 0 = Returns r
            /\ exit r = SizeLimit (0 + 101) /\ linesRead r = 102
            /\ ~ linesRead r <= 1 + 100.
Proof.
  eexists. split; [vm_compute; reflexivity|]. cbn [exit linesRead].
  split; [reflexivity|]. split; [reflexivity|]. lia.
Qed.

(** C7, amended: whatever the braces, the forward scan returns after
    reading at most 102 lines, the declaration line and at most 101 lines
    beyond it, and the text it accumulated is the lines it read. *)
Theorem scan_reads_at_most_102_lines
    (document : TextDocument) (startLine : nat) :
  exists r, findFunctionEnd document startLine = Returns r
            /\ linesRead r <= 1 + 101
            /\ functionText (final r) =
               joinLines (linesBetween document startLine
                            (startLine + linesRead r)).
Proof. exact (findFunctionEnd_returns document startLine). Qed.

(** C5: the forward scan stops at the first line it reaches (no more than
    101 lines beyond the declaration line) at which the running brace count
    is zero and which itself holds an opening brace; in particular a
    declaration line that holds an opening brace and as many closing as
    opening braces ends the scan on the declaration line. *)
Theorem scan_stops_at_first_balanced_line
    (document : TextDocument) (startLine : nat) :
  (forall e,
     startLine <= e < lineCount document -> e <= startLine + 101 ->
     balancedAt document startLine e ->
     (forall j, startLine <= j < e -> ~ balancedAt document startLine j) ->
     exists r, findFunctionEnd document startLine = Returns r
               /\ exit r = BraceBalanced e /\ endLine (final r) = e
               /\ functionText (final r)
                  = joinLines (linesBetween document startLine (S e)))
  /\ (forall lineText,
        nth_error document startLine = Some lineText ->
        includes lbrace lineText = true ->
        occurrences lbrace lineText = occurrences rbrace lineText ->
        exists r, findFunctionEnd document startLine = Returns r
                  /\ exit r = BraceBalanced startLine
                  /\ endLine (final r) = startLine
                  /\ functionText (final r) = lineText ++ [nl]).
Proof.
  assert (Hfirst : forall e,
     startLine <= e < lineCount document -> e <= startLine + 101 ->
     balancedAt document startLine e ->
     (forall j, startLine <= j < e -> ~ balancedAt document startLine j) ->
     exists r, findFunctionEnd document startLine = Returns r
               /\ exit r = BraceBalanced e /\ endLine (final r) = e
               /\ functionText (final r)
                  = joinLines (linesBetween document startLine (S e))).
  { intros e He Hcap Hb Hmin.
    destruct (@findFunctionEnd_spec document startLine) as (r & Hr & Hft & Hex);
      [lia|].
    exists r. split; [exact Hr|].
    destruct (exit r) as [e' | e' | e'].
    - destruct Hex as (He' & _ & Hb' & Hmin' & Hend & Hread).
      assert (Heq' : e' = e).
      { destruct (Nat.lt_trichotomy e' e) as [Hlt | [Heq | Hgt]]; [|exact Heq|].
        - exfalso. apply (Hmin e'); [lia | exact Hb'].
        - exfalso. apply (Hmin' e); [lia | exact Hb]. }
      rewrite Heq' in *. split; [reflexivity|]. split; [exact Hend|].
      rewrite Hft, Hread. now replace (startLine + (S e - startLine)) with (S e) by lia.
    - exfalso. destruct Hex as (-> & _ & Hnone & _). apply (Hnone e); [lia | exact Hb].
    - exfalso. destruct Hex as (-> & _ & Hnone & _). apply (Hnone e); [lia | exact Hb]. }
  split; [exact Hfirst|].
  intros lineText Hn Hinc Hocc.
  assert (Hlt : startLine < lineCount document).
  { unfold lineCount. apply nth_error_Some. congruence. }
  assert (Hone : linesBetween document startLine (S startLine) = [lineText]).
  { rewrite (linesBetween_snoc document (Nat.le_refl startLine) Hn).
    now rewrite linesBetween_empty. }
  destruct (Hfirst startLine) as (r & Hr & Hex & Hend & Hft); try lia.
  - split; [|eauto]. unfold runningBraceCount. rewrite Hone. simpl concat.
    rewrite app_nil_r, Hocc. lia.
  - exists r. rewrite Hft, Hone. cbn [joinLines flat_map].
    now rewrite app_nil_r.
Qed.

Lemma scan_stops_at_first_balanced_line_witness :
  (exists r, findFunctionEnd arrowDocument 0 = Returns r
             /\ exit r = BraceBalanced 3 /\ endLine (final r) = 3
             /\ functionText (final r)
                = joinLines (linesBetween arrowDocument 0 4))
  /\ (exists r, findFunctionEnd arrowDocument 3 = Returns r
                /\ exit r = BraceBalanced 3 /\ endLine (final r) = 3
                /\ functionText (final r)
                   = str "const g = (y) => { return y; };" ++ [nl]).
Proof.
  split.
  - apply (proj1 (scan_stops_at_first_balanced_line arrowDocument 0)).
    + unfold lineCount. simpl. lia.
    + lia.
    + split; [vm_compute; reflexivity|]. eexists. split; reflexivity.
    + intros [|[|[|j]]] Hj; try lia.
      * intros [H _]. vm_compute in H. discriminate.
      * intros [H _]. vm_compute in H. discriminate.
      * intros [_ (l & Hl & Hinc)]. injection Hl as <-. vm_compute in Hinc.
        discriminate.
  - apply (proj2 (scan_stops_at_first_balanced_line arrowDocument 3));
      reflexivity.
Defined.

(** C1 (P4): the code does not do what the property asks.  In
    [twoFunctions] the braces of [add] are matched, the running count from
    line 0 first returns to zero at line 2 after a brace was opened at line
    0, and the forward scan does not stop there: the first break also asks
    for an opening brace on the line itself, so the scan runs on to the end
    of the document, and the return type of the next function is taken for
    the one of [add]. *)
Theorem scan_misses_closing_line :
  runningBraceCount twoFunctions 0 2 = 0%Z
  /\ 0 < occurrences lbrace (concat (linesBetween twoFunctions 0 (S 2)))
  /\ (forall j, j < 2 -> runningBraceCount twoFunctions 0 j <> 0%Z)
  /\ (exists r, findFunctionEnd twoFunctions 0 = Returns r
                /\ exit r = EndOfDocument 6 /\ linesRead r = 6
                /\ functionText (final r) = joinLines twoFunctions)
  /\ detectFunctionAtCursor twoFunctions 1
     = Returns (Some ({| name := JStr (str "add");
                         params := [str "a"; str "b"];
                         returnType := JStr (str "number");
                         body := joinLines twoFunctions |}, 0)).
Proof.
  split; [vm_compute; reflexivity|]. split; [vm_compute; lia|].
  split.
  - intros [|[|j]] Hj; try lia; vm_compute; discriminate.
  - split; [eexists; split; [vm_compute; reflexivity|]|];
      repeat split; vm_compute; reflexivity.
Qed.

(** * Further properties of the locator, the extractor and the formatter *)

Unset Implicit Arguments.

(** ** The locator *)

Lemma detect_throws_outside (document : TextDocument) (cursorLine : nat) :
  lineCount document <= cursorLine ->
  detectFunctionAtCursor document cursorLine = Throws.
Proof.
  intro Hout. unfold detectFunctionAtCursor, lookback.
  rewrite Nat.add_1_r. cbn [searchBackwards]. unfold lineAt.
  replace (nth_error document cursorLine) with (@None jstring);
    [reflexivity|].
  symmetry. now apply nth_error_None.
Qed.

(** X1: the locator throws exactly when the cursor line is not a line of
    the document: the backward loop always reads the cursor line first. *)
Theorem detect_throws_iff_cursor_outside
    (document : TextDocument) (cursorLine : nat) :
  detectFunctionAtCursor document cursorLine = Throws
  <-> lineCount document <= cursorLine.
Proof.
  split; [|apply detect_throws_outside].
  intro Hthrows. destruct (Nat.le_gt_cases (lineCount document) cursorLine)
    as [Hle | Hgt]; [exact Hle|].
  exfalso. destruct (detect_spec document Hgt)
    as [[Hd _] | (s & l & scan & ps & _ & _ & _ & _ & _ & _ & Hd)];
    congruence.
Qed.

Lemma linesBetween_cons (document : TextDocument) (a n : nat)
    (lineText : jstring) :
  nth_error document a = Some lineText ->
  linesBetween document a (a + S n)
  = lineText :: linesBetween document (S a) (S a + n).
Proof.
  intro Hn. unfold linesBetween.
  replace (a + S n - a) with (S n) by lia.
  replace (S a + n - S a) with n by lia.
  revert a Hn. induction document as [|x document IH]; intros [|a] Hn;
    simpl in *; try discriminate.
  - now injection Hn as ->.
  - now apply IH.
Qed.

(** X2: a result of the locator starts at the declaration line nearest to
    the cursor: the start line is at most 20 lines above the cursor, a
    declaration pattern matches it, no line between it and the cursor is
    matched, and the body handed on begins with that line and a line feed. *)
Theorem detect_start_is_nearest_declaration
    (document : TextDocument) (cursorLine : nat)
    (functionInfo : FunctionInfo) (startLine : nat) :
  detectFunctionAtCursor document cursorLine
    = Returns (Some (functionInfo, startLine)) ->
  startLine <= cursorLine /\ cursorLine - startLine <= 20
  /\ (forall j lineText, startLine < j <= cursorLine ->
        nth_error document j = Some lineText -> ~ declarationLine lineText)
  /\ exists lineText rest,
       nth_error document startLine = Some lineText
       /\ declarationLine lineText
       /\ body functionInfo = lineText ++ [nl] ++ rest.
Proof.
  intro Hd.
  destruct (Nat.le_gt_cases (lineCount document) cursorLine) as [Hle | Hgt].
  { rewrite (detect_throws_outside document cursorLine Hle) in Hd. discriminate. }
  destruct (detect_spec document Hgt)
    as [[Hn _] | (s & l & scan & ps & Hs & Hl & Hdecl & Hnear & _ & Hpost & Hd')];
    [congruence|].
  rewrite Hd' in Hd. injection Hd as <- <-. cbn [body].
  split; [lia|]. split; [lia|]. split; [exact Hnear|].
  exists l. destruct Hpost as [Hft Hex].
  assert (Hread : exists n, linesRead scan = S n).
  { assert (s < lineCount document).
    { unfold lineCount. apply nth_error_Some. congruence. }
    destruct (exit scan); destruct (linesRead scan); eauto; lia. }
  destruct Hread as (n & Hread). rewrite Hread in Hft.
  rewrite (@linesBetween_cons document s n l Hl) in Hft.
  cbn [joinLines flat_map] in Hft. rewrite <- app_assoc in Hft.
  eexists. split; [exact Hl|]. split; [exact Hdecl|]. exact Hft.
Qed.

Lemma detect_start_is_nearest_declaration_witness :
  3 <= 4 /\ 4 - 3 <= 20
  /\ (forall j lineText, 3 < j <= 4 ->
        nth_error twoFunctions j = Some lineText -> ~ declarationLine lineText)
  /\ exists lineText rest,
       nth_error twoFunctions 3 = Some lineText
       /\ declarationLine lineText
       /\ body {| name := JStr (str "size"); params := [str "s"];
                  returnType := JStr (str "number");
                  body := joinLines (skipn 3 twoFunctions) |}
          = lineText ++ [nl] ++ rest.
Proof.
  apply (@detect_start_is_nearest_declaration twoFunctions 4).
  vm_compute. reflexivity.
Defined.

Lemma occurrences_app (c : char) (s t : jstring) :
  occurrences c (s ++ t) = occurrences c s + occurrences c t.
Proof. unfold occurrences. now rewrite filter_app, length_app. Qed.

Lemma occurrences_joinLines (c : char) (ls : list jstring) :
  char_eqb nl c = false ->
  occurrences c (joinLines ls) = occurrences c (concat ls).
Proof.
  intro Hc. induction ls as [|l ls IH]; [reflexivity|].
  cbn [joinLines flat_map concat]. fold (joinLines ls).
  rewrite !occurrences_app, IH. unfold occurrences at 2.
  cbn [filter]. rewrite Hc. simpl. lia.
Qed.

(** X3: when the forward loop is left by its first break, the text it
    accumulated holds at least one opening brace and as many closing as
    opening braces. *)
Theorem balanced_break_gives_balanced_text
    (document : TextDocument) (startLine : nat) (scan : ScanResult) (e : nat) :
  findFunctionEnd document startLine = Returns scan ->
  exit scan = BraceBalanced e ->
  0 < occurrences lbrace (functionText (final scan))
  /\ occurrences lbrace (functionText (final scan))
     = occurrences rbrace (functionText (final scan)).
Proof.
  intros Hscan Hexit.
  assert (Hle : startLine <= lineCount document).
  { destruct (Nat.le_gt_cases startLine (lineCount document)) as [H | H];
      [exact H|].
    unfold findFunctionEnd in Hscan.
    replace (lineCount document - startLine) with 0 in Hscan by lia.
    cbn [scanForward] in Hscan. injection Hscan as <-. discriminate. }
  destruct (@findFunctionEnd_spec document startLine Hle) as (r & Hr & Hft & Hex).
  rewrite Hscan in Hr. injection Hr as <-. rewrite Hexit in Hex.
  destruct Hex as (He & _ & [Hrun (l & Hl & Hinc)] & _ & _ & Hread).
  rewrite Hft, Hread. replace (startLine + (S e - startLine)) with (S e) by lia.
  rewrite !occurrences_joinLines by reflexivity.
  unfold runningBraceCount in Hrun. split; [|lia].
  rewrite (linesBetween_snoc document (proj1 He) Hl), concat_app.
  cbn [concat]. rewrite app_nil_r, occurrences_app.
  assert (0 < occurrences lbrace l); [|lia].
  clear - Hinc. unfold includes, occurrences in *.
  induction l as [|c l IH]; [discriminate|]. cbn [existsb filter] in *.
  unfold char_eqb in *. rewrite (N.eqb_sym c lbrace).
  destruct (N.eqb lbrace c); simpl; [lia | auto].
Qed.

Lemma balanced_break_gives_balanced_text_witness :
  0 < occurrences lbrace (joinLines arrowDocument)
  /\ occurrences lbrace (joinLines arrowDocument)
     = occurrences rbrace (joinLines arrowDocument).
Proof.
  apply (@balanced_break_gives_balanced_text arrowDocument 0
           {| final := {| braceCount := 0; endLine := 3;
                          functionText := joinLines arrowDocument |};
              exit := BraceBalanced 3; linesRead := 4 |} 3).
  - vm_compute. reflexivity.
  - reflexivity.
Defined.

(** ** Strings: [trim], [split] and the prefix functions *)

Lemma takeWhile_dropWhile (p : char -> bool) (s : jstring) :
  takeWhile p s ++ dropWhile p s = s.
Proof.
  induction s as [|c s IH]; [reflexivity|]. simpl.
  destruct (p c); [simpl; now rewrite IH | reflexivity].
Qed.

Lemma takeWhile_all (p : char -> bool) (s : jstring) :
  forallb p (takeWhile p s) = true.
Proof.
  induction s as [|c s IH]; [reflexivity|]. simpl.
  destruct (p c) eqn:Hc; [simpl; now rewrite Hc | reflexivity].
Qed.

Lemma takeWhile_forallb (p q : char -> bool) (s : jstring) :
  forallb q s = true -> forallb q (takeWhile p s) = true.
Proof.
  induction s as [|c s IH]; [reflexivity|]. simpl. intro H.
  apply andb_true_iff in H as [Hc Hs].
  destruct (p c); [simpl; now rewrite Hc, IH | reflexivity].
Qed.

Lemma takeWhile_app_stop (p : char -> bool) (w rest : jstring) :
  forallb p w = true ->
  match rest with [] => True | c :: _ => p c = false end ->
  takeWhile p (w ++ rest) = w /\ dropWhile p (w ++ rest) = rest.
Proof.
  intros Hw Hrest. induction w as [|a w IH]; simpl in *.
  - destruct rest as [|c rest]; [auto|]. simpl. now rewrite Hrest.
  - apply andb_true_iff in Hw as [Ha Hw]. rewrite Ha.
    destruct (IH Hw) as [-> ->]. auto.
Qed.

Lemma trimStart_dropWhile (s : jstring) : trimStart s = dropWhile is_space s.
Proof. induction s as [|c s IH]; [reflexivity|]. simpl. now rewrite IH. Qed.

Lemma trimStart_forallb (q : char -> bool) (s : jstring) :
  forallb q s = true -> forallb q (trimStart s) = true.
Proof.
  induction s as [|c s IH]; [reflexivity|]. intro H. simpl.
  destruct (is_space c); [|exact H].
  simpl in H. apply andb_true_iff in H as [_ Hs]. auto.
Qed.

Lemma forallb_rev (q : char -> bool) (s : jstring) :
  forallb q (rev s) = forallb q s.
Proof.
  induction s as [|c s IH]; [reflexivity|]. simpl.
  rewrite forallb_app, IH. simpl. rewrite andb_true_r. apply andb_comm.
Qed.

Lemma trim_forallb (q : char -> bool) (s : jstring) :
  forallb q s = true -> forallb q (trim s) = true.
Proof.
  intro H. unfold trim, trimEnd. rewrite forallb_rev.
  apply trimStart_forallb. rewrite forallb_rev. now apply trimStart_forallb.
Qed.

Lemma trimStart_fixed (s : jstring) :
  match s with [] => True | c :: _ => is_space c = false end ->
  trimStart s = s.
Proof. destruct s as [|c s]; [reflexivity|]. simpl. now intros ->. Qed.

Lemma trimStart_head (s : jstring) :
  match trimStart s with [] => True | c :: _ => is_space c = false end.
Proof.
  induction s as [|c s IH]; [exact I|]. simpl.
  destruct (is_space c) eqn:Hc; [exact IH | exact Hc].
Qed.

Lemma trimStart_idem (s : jstring) : trimStart (trimStart s) = trimStart s.
Proof. apply trimStart_fixed, trimStart_head. Qed.

Lemma trimStart_snoc (u : jstring) (c : char) :
  is_space c = false -> trimStart (u ++ [c]) = trimStart u ++ [c].
Proof.
  intro Hc. induction u as [|a u IH]; simpl; [now rewrite Hc|].
  destruct (is_space a); [exact IH | reflexivity].
Qed.

Lemma trimEnd_cons (c : char) (s : jstring) :
  is_space c = false -> trimEnd (c :: s) = c :: trimEnd s.
Proof.
  intro Hc. unfold trimEnd. simpl rev.
  now rewrite (@trimStart_snoc (rev s) c Hc), rev_app_distr.
Qed.

Lemma trimEnd_idem (s : jstring) : trimEnd (trimEnd s) = trimEnd s.
Proof. unfold trimEnd. now rewrite rev_involutive, trimStart_idem. Qed.

Lemma trim_head (s : jstring) :
  match trim s with [] => True | c :: _ => is_space c = false end.
Proof.
  unfold trim. pose proof (trimStart_head s) as H.
  destruct (trimStart s) as [|c t]; [exact I|].
  now rewrite (@trimEnd_cons c t H).
Qed.

(** Trimming twice is trimming once. *)
Lemma trim_idem (s : jstring) : trim (trim s) = trim s.
Proof.
  unfold trim at 1. rewrite (@trimStart_fixed (trim s) (trim_head s)).
  unfold trim. apply trimEnd_idem.
Qed.

Lemma trimEnd_word_spaces (w sp : jstring) :
  forallb is_space sp = true ->
  match rev w with [] => True | c :: _ => is_space c = false end ->
  trimEnd (w ++ sp) = w.
Proof.
  intros Hsp Hw. unfold trimEnd. rewrite rev_app_distr.
  rewrite <- forallb_rev in Hsp.
  assert (H : trimStart (rev sp ++ rev w) = rev w).
  { induction (rev sp) as [|a u IH]; simpl in *.
    - now apply trimStart_fixed.
    - apply andb_true_iff in Hsp as [-> Hu]. auto. }
  now rewrite H, rev_involutive.
Qed.

(** The first piece of [split] is the text before the first separator. *)
Lemma split_first (sep : char) (s : jstring) :
  exists rest,
    split sep s = takeWhile (fun c => negb (char_eqb c sep)) s :: rest.
Proof.
  induction s as [|c s (rest & IH)]; simpl; [eauto|].
  destruct (char_eqb c sep); simpl; [eauto|]. rewrite IH. eauto.
Qed.

Lemma split_forallb (q : char -> bool) (sep : char) (s : jstring) :
  forallb q s = true -> Forall (fun piece => forallb q piece = true) (split sep s).
Proof.
  induction s as [|c s IH]; simpl; intro H.
  - constructor; [reflexivity | constructor].
  - apply andb_true_iff in H as [Hc Hs]. specialize (IH Hs).
    destruct (char_eqb c sep).
    + constructor; [reflexivity | exact IH].
    + destruct (split sep s) as [|piece rest].
      * constructor; [simpl; now rewrite Hc | constructor].
      * inversion IH; subst. constructor; [simpl; now rewrite Hc | assumption].
Qed.

Lemma split_no_sep (sep : char) (s : jstring) :
  Forall (fun piece => forallb (fun c => negb (char_eqb c sep)) piece = true)
         (split sep s).
Proof.
  induction s as [|c s IH]; simpl.
  - constructor; [reflexivity | constructor].
  - destruct (char_eqb c sep) eqn:Hc.
    + constructor; [reflexivity | exact IH].
    + destruct (split sep s) as [|piece rest].
      * constructor; [simpl; now rewrite Hc | constructor].
      * inversion IH; subst. constructor; [simpl; now rewrite Hc | assumption].
Qed.

(** ** The extractor *)


Lemma paramName_spec (p : jstring) :
  paramName p = Returns (trim (beforeDelimiter p)).
Proof.
  unfold paramName, beforeDelimiter.
  destruct (split_first (chr ":") p) as (r1 & ->).
  unfold elem. cbn [nth_error receiver bind].
  destruct (split_first (chr "=")
              (takeWhile (fun c => negb (char_eqb c (chr ":"))) p)) as (r2 & ->).
  reflexivity.
Qed.

Lemma mapM_paramName (l : list jstring) :
  mapM paramName l = Returns (map (fun p => trim (beforeDelimiter p)) l).
Proof.
  induction l as [|p l IH]; [reflexivity|].
  cbn [mapM map]. rewrite paramName_spec, IH. reflexivity.
Qed.

(** The extractor, with the parameter list it reads: the text between the
    leftmost opening parenthesis that has a closing one after it and the
    first closing parenthesis that follows. *)
Lemma parse_params (text : jstring) :
  exists inner,
    forallb (is_not ")") inner = true
    /\ ((exec paramsPattern text = None /\ inner = [])
        \/ exists pre post,
             text = pre ++ str "(" ++ inner ++ str ")" ++ post
             /\ forall pre' w' post', text = pre' ++ w' ++ post' ->
                  lang paramsPattern (length pre') w' ->
                  length pre <= length pre')
    /\ parseFunctionFromText text =
       Returns {| name := extractName text; params := paramsOf inner;
                  returnType := extractReturnType text; body := text |}.
Proof.
  unfold parseFunctionFromText.
  destruct (exec paramsPattern text) as [m|] eqn:Hm.
  - apply exec_Some in Hm as (pre & post & Ht & _ & Hc & Hleft).
    apply paramsPattern_captured in Hc as (inner & Hc & Hw & Hin).
    exists inner. split; [exact Hin|]. split.
    + right. exists pre, post. split; [|exact Hleft].
      rewrite Ht, Hw, <- !app_assoc. reflexivity.
    + unfold group. rewrite Hc. cbn [capture Nat.eqb receiver bind].
      rewrite mapM_paramName. reflexivity.
  - exists []. split; [reflexivity|]. split; [left; auto|].
    cbn [receiver bind]. rewrite mapM_paramName. reflexivity.
Qed.

Lemma returnPattern_captured_word i w c :
  captured returnPattern i w [] c ->
  exists a type, c = [(1, a :: type)] /\ is_word a = true.
Proof.
  intro H.
  apply captured_Seq_l in H as (w1 & w2 & -> & _ & H); [|reflexivity].
  apply captured_Seq_l in H as (w3 & w4 & -> & _ & H); [|reflexivity].
  apply captured_Grp in H as [-> H]; [|reflexivity].
  destruct H as (u & v & -> & Hu & _). apply lang_Plus in Hu as [Hn Hu].
  destruct u as [|a u]; [contradiction|]. simpl in Hu.
  apply andb_true_iff in Hu as [Ha _]. exists a, (u ++ v). auto.
Qed.

(** X4: the name the extractor returns is never empty and is made of word
    characters only, and the return type it returns is never empty and
    begins with a word character, whatever the text. *)
Theorem extractor_fields_never_empty (text : jstring) :
  exists n a rt ps,
    parseFunctionFromText text =
      Returns {| name := JStr n; params := ps; returnType := JStr (a :: rt);
                 body := text |}
    /\ n <> [] /\ forallb is_word n = true /\ is_word a = true.
Proof.
  destruct (parse_returns text) as (ps & Hp).
  assert (Hn : exists n, extractName text = JStr n /\ n <> []
                         /\ forallb is_word n = true).
  { destruct (exec namePattern text) as [m|] eqn:Hm.
    - exact (extractName_matched text Hm).
    - unfold extractName. rewrite Hm. exists (str "unknown").
      split; [reflexivity|]. split; [discriminate | reflexivity]. }
  assert (Hr : exists a rt, extractReturnType text = JStr (a :: rt)
                            /\ is_word a = true).
  { unfold extractReturnType.
    destruct (exec returnPattern text) as [m|] eqn:Hm.
    - apply exec_Some in Hm as (pre & post & _ & _ & Hc & _).
      apply returnPattern_captured_word in Hc as (a & ty & Hc & Ha).
      unfold group. rewrite Hc. cbn [capture Nat.eqb]. eauto.
    - exists (chr "v"), (str "oid"). split; reflexivity. }
  destruct Hn as (n & Hn & Hne & Hw). destruct Hr as (a & rt & Hr & Ha).
  exists n, a, rt, ps. rewrite Hp, Hn, Hr. auto.
Qed.

Lemma beforeDelimiter_no_delimiter (p : jstring) :
  forallb (fun c => negb (char_eqb c (chr ":"))) (beforeDelimiter p) = true
  /\ forallb (fun c => negb (char_eqb c (chr "="))) (beforeDelimiter p) = true.
Proof.
  unfold beforeDelimiter. split.
  - apply takeWhile_forallb, takeWhile_all.
  - apply takeWhile_all.
Qed.

Lemma paramsOf_invariants (inner : jstring) :
  forallb (is_not ")") inner = true ->
  Forall (fun p =>
            trim p = p
            /\ forallb (fun c => negb (char_eqb c (chr ","))) p = true
            /\ forallb (fun c => negb (char_eqb c (chr ":"))) p = true
            /\ forallb (fun c => negb (char_eqb c (chr "="))) p = true
            /\ forallb (is_not ")") p = true)
         (paramsOf inner).
Proof.
  intro Hin. unfold paramsOf.
  pose proof (split_no_sep (chr ",") inner) as Hcomma.
  pose proof (split_forallb (is_not ")") (chr ",") inner Hin) as Hparen.
  induction (split (chr ",") inner) as [|piece pieces IH];
    [constructor|].
  inversion Hcomma as [|? ? Hc1 Hc2]; subst.
  inversion Hparen as [|? ? Hp1 Hp2]; subst.
  cbn [map filter]. destruct (Nat.ltb 0 (length (trim piece)));
    [|exact (IH Hc2 Hp2)].
  cbn [map]. constructor; [|exact (IH Hc2 Hp2)].
  destruct (beforeDelimiter_no_delimiter (trim piece)) as [Hcolon Heq].
  split; [apply trim_idem|].
  split; [apply trim_forallb; unfold beforeDelimiter;
          now apply takeWhile_forallb, takeWhile_forallb, trim_forallb|].
  split; [now apply trim_forallb|]. split; [now apply trim_forallb|].
  apply trim_forallb. unfold beforeDelimiter.
  now apply takeWhile_forallb, takeWhile_forallb, trim_forallb.
Qed.

(** X5: no parameter name the extractor returns holds a comma, a colon, an
    equals sign or a closing parenthesis, and none has whitespace at either
    end, whatever the text. *)
Theorem parameter_names_are_bare (text : jstring) :
  exists functionInfo,
    parseFunctionFromText text = Returns functionInfo
    /\ forall p, In p (params functionInfo) ->
         trim p = p
         /\ forall c, In c p ->
              c <> chr "," /\ c <> chr ":" /\ c <> chr "=" /\ c <> chr ")".
Proof.
  destruct (parse_params text) as (inner & Hin & _ & Hp).
  eexists. split; [exact Hp|]. cbn [params]. intros p Hp'.
  pose proof (paramsOf_invariants inner Hin) as Hall.
  rewrite Forall_forall in Hall.
  destruct (Hall p Hp') as (Ht & H1 & H2 & H3 & H4).
  split; [exact Ht|]. intros c Hc.
  rewrite forallb_forall in H1, H2, H3, H4.
  specialize (H1 c Hc). specialize (H2 c Hc). specialize (H3 c Hc).
  specialize (H4 c Hc). unfold is_not in H4.
  repeat split; intros ->; discriminate.
Qed.

(** ** The formatter *)

Lemma exec_from_unfold (r : regex) (pos : nat) (s : jstring) :
  exec_from r pos s =
  match matcher r pos s [] (fun j _ c => Some (j, c)) with
  | Some (j, c) =>
      Some {| index := pos; whole := firstn (j - pos) s; groups := c |}
  | None => match s with [] => None | _ :: s' => exec_from r (S pos) s' end
  end.
Proof. destruct s; reflexivity. Qed.

(** A star whose continuation accepts takes the longest prefix. *)
Lemma star_takes_all (p : char -> bool) : forall s i c,
  star p i s c (fun j _ c' => Some (j, c'))
  = Some (i + length (takeWhile p s), c).
Proof.
  induction s as [|a s IH]; intros i c; simpl.
  - now rewrite Nat.add_0_r.
  - destruct (p a); simpl.
    + rewrite IH. now rewrite Nat.add_succ_r.
    + now rewrite Nat.add_0_r.
Qed.

Lemma firstn_takeWhile (p : char -> bool) (s : jstring) :
  firstn (length (takeWhile p s)) s = takeWhile p s.
Proof.
  induction s as [|a s IH]; [reflexivity|]. simpl.
  destruct (p a); simpl; [now rewrite IH | reflexivity].
Qed.

Lemma exec_indentPattern (lineText : jstring) :
  exec indentPattern lineText
  = Some {| index := 0; whole := takeWhile is_space lineText; groups := [] |}.
Proof.
  unfold exec. rewrite exec_from_unfold. unfold indentPattern.
  cbn [matcher Nat.eqb]. rewrite star_takes_all.
  cbn [Nat.add]. now rewrite Nat.sub_0_r, firstn_takeWhile.
Qed.

(** X6: the comment is inserted at column 0 of the target line and is built
    with the whole leading whitespace of that line as its indentation;
    outside the document the call throws. *)
Theorem insert_uses_leading_whitespace
    (document : TextDocument) (line : nat) (summary : jstring)
    (functionInfo : FunctionInfo) :
  insertDocumentation document line summary functionInfo
  = match nth_error document line with
    | Some lineText =>
        Returns (line, 0,
                 buildDoc (takeWhile is_space lineText) summary functionInfo)
    | None => Throws
    end
  /\ forall lineText,
       takeWhile is_space lineText ++ trimStart lineText = lineText
       /\ forallb is_space (takeWhile is_space lineText) = true
       /\ match trimStart lineText with
          | [] => True
          | c :: _ => is_space c = false
          end.
Proof.
  split.
  - unfold insertDocumentation, lineAt.
    destruct (nth_error document line) as [lineText|]; [|reflexivity].
    cbn [bind]. rewrite exec_indentPattern. cbn [whole].
    now destruct (takeWhile is_space lineText).
  - intro lineText. split; [|split].
    + rewrite trimStart_dropWhile. apply takeWhile_dropWhile.
    + apply takeWhile_all.
    + apply trimStart_head.
Qed.

Lemma paramTags_lines (indent : jstring) (ps : list jstring) :
  paramTags indent ps
  = joinLines (map (app indent) (map paramLine (filter documented ps))).
Proof.
  induction ps as [|p ps IH]; [reflexivity|].
  cbn [paramTags filter]. fold (documented p).
  destruct (documented p).
  - cbn [map joinLines flat_map]. fold (joinLines (map (app indent)
      (map paramLine (filter documented ps)))).
    rewrite <- IH. unfold paramTag, paramLine.
    now rewrite <- !app_assoc.
  - exact IH.
Qed.

Lemma joinLines_app (a b : list jstring) :
  joinLines (a ++ b) = joinLines a ++ joinLines b.
Proof. apply flat_map_app. Qed.

Lemma buildDoc_lines (indent summary : jstring) (functionInfo : FunctionInfo) :
  buildDoc indent summary functionInfo
  = joinLines (map (app indent) (commentLines summary functionInfo)).
Proof.
  unfold buildDoc, commentLines. rewrite !map_app, !joinLines_app.
  rewrite paramTags_lines.
  destruct (strict_neq (returnType functionInfo) (str "void"));
    cbn [map joinLines flat_map app]; rewrite ?app_nil_r, <- ?app_assoc;
    reflexivity.
Qed.

Lemma linesOf_line (l rest : jstring) :
  forallb (fun c => negb (char_eqb c nl)) l = true ->
  linesOf (l ++ nl :: rest) = l :: linesOf rest.
Proof.
  induction l as [|c l IH]; intro H.
  - reflexivity.
  - simpl in H. apply andb_true_iff in H as [Hc Hl].
    apply negb_true_iff in Hc. cbn [app linesOf]. rewrite Hc.
    now rewrite (IH Hl).
Qed.

Lemma linesOf_joinLines (ls : list jstring) :
  Forall (fun l => forallb (fun c => negb (char_eqb c nl)) l = true) ls ->
  linesOf (joinLines ls) = ls.
Proof.
  induction 1 as [|l ls Hl _ IH]; [reflexivity|].
  cbn [joinLines flat_map]. fold (joinLines ls).
  rewrite <- app_assoc. cbn [app]. now rewrite (linesOf_line l _ Hl), IH.
Qed.

(** X7: the comment block is, line by line, the indentation followed by
    the opening delimiter, the summary open tag, the summary, the summary
    close tag, a param tag for every parameter name that is neither empty
    nor [...], a returns tag when the return type is not "void", and the
    closing delimiter: five lines, one more for each such parameter and one
    more for the returns tag.  When the indentation, the summary and the
    parameter names hold no line feed these are the lines of the block. *)
Theorem comment_block_structure
    (indent summary : jstring) (functionInfo : FunctionInfo) :
  buildDoc indent summary functionInfo
  = joinLines (map (app indent) (commentLines summary functionInfo))
  /\ length (commentLines summary functionInfo)
     = 5 + length (filter documented (params functionInfo))
       + (if strict_neq (returnType functionInfo) (str "void") then 1 else 0)
  /\ (forallb (fun c => negb (char_eqb c nl)) indent = true ->
      forallb (fun c => negb (char_eqb c nl)) summary = true ->
      (forall p, In p (params functionInfo) ->
         forallb (fun c => negb (char_eqb c nl)) p = true) ->
      linesOf (buildDoc indent summary functionInfo)
      = map (app indent) (commentLines summary functionInfo)).
Proof.
  split; [apply buildDoc_lines|]. split.
  - unfold commentLines. rewrite !length_app, length_map.
    destruct (strict_neq (returnType functionInfo) (str "void"));
      cbn [length]; lia.
  - intros Hi Hs Hp. rewrite buildDoc_lines. apply linesOf_joinLines.
    apply Forall_map. unfold commentLines.
    assert (Hlit : forall l, forallb (fun c => negb (char_eqb c nl)) l = true ->
                   forallb (fun c => negb (char_eqb c nl)) (indent ++ l) = true).
    { intros l Hl. now rewrite forallb_app, Hi, Hl. }
    repeat (apply Forall_cons; [apply Hlit; try reflexivity|]).
    + cbn [forallb app]. exact Hs.
    + apply Forall_app. split.
      * apply Forall_map. apply Forall_forall. intros p Hin.
        apply filter_In in Hin as [Hin _]. apply Hlit. unfold paramLine.
        rewrite !forallb_app, (Hp p Hin). reflexivity.
      * destruct (strict_neq (returnType functionInfo) (str "void"));
          repeat (apply Forall_cons; [apply Hlit; reflexivity|]);
          apply Forall_nil.
Qed.

Lemma comment_block_structure_witness :
  linesOf (buildDoc (str "  ") (str "Adds two numbers.")
             (addSignature (str "function add(a, b) { return a + b; }")))
  = map (app (str "  "))
      (commentLines (str "Adds two numbers.")
         (addSignature (str "function add(a, b) { return a + b; }"))).
Proof.
  apply (proj2 (proj2 (comment_block_structure (str "  ")
                  (str "Adds two numbers.")
                  (addSignature (str "function add(a, b) { return a + b; }"))))).
  - reflexivity.
  - reflexivity.
  - intros p [<- | [<- | []]]; reflexivity.
Defined.

(** ** The name of a declaration *)

Lemma word_not_space (c : char) : is_word c = true -> is_space c = false.
Proof.
  unfold is_word, is_space. intro H.
  apply not_true_is_false. intro Hs.
  rewrite ?orb_true_iff, ?andb_true_iff, ?N.leb_le, ?N.eqb_eq in *. lia.
Qed.

Lemma space_not_word (c : char) : is_space c = true -> is_word c = false.
Proof.
  intro Hs. destruct (is_word c) eqn:Hw; [|reflexivity].
  apply word_not_space in Hw. congruence.
Qed.

Lemma word_not_delimiter (c : char) :
  is_word c = true ->
  c <> chr "=" /\ c <> chr ":" /\ c <> chr "," /\ c <> chr "(" /\ c <> chr ")".
Proof. intro H. repeat split; intros ->; discriminate. Qed.

Lemma space_not_delimiter (c : char) :
  is_space c = true ->
  c <> chr "=" /\ c <> chr ":" /\ c <> chr "," /\ c <> chr "(" /\ c <> chr ")".
Proof. intro H. repeat split; intros ->; discriminate. Qed.

Lemma keywords_are_words (kw : jstring) :
  In kw keywords -> kw <> [] /\ forallb is_word kw = true.
Proof.
  intros [<- | [<- | [<- | [<- | []]]]]; split; try discriminate; reflexivity.
Qed.

Lemma lang_literal (l : jstring) : forall i w,
  lang (fold_right (fun c r => Seq (Chr c) r) Eps l) i w <-> w = l.
Proof.
  induction l as [|a l IH]; intros i w; simpl.
  - tauto.
  - split.
    + intros (w1 & w2 & -> & -> & H). apply IH in H. now subst.
    + intros ->. exists [a], l. split; [reflexivity|]. split; [reflexivity|].
      now apply IH.
Qed.

Lemma lang_Lit (s : string) (i : nat) (w : jstring) :
  lang (Lit s) i w <-> w = str s.
Proof. apply lang_literal. Qed.

Lemma lang_keyword_alternatives (i : nat) (w : jstring) :
  lang (Alt (Alt (Alt (Lit "function") (Lit "const")) (Lit "let")) (Lit "var"))
       i w
  -> In w keywords.
Proof.
  intros [[[H | H] | H] | H]; apply lang_Lit in H; subst; simpl; auto.
Qed.

(** Where the first alternative of the name pattern matches, a keyword and
    a whitespace character stand. *)
Lemma keywordName_shape (i : nat) (w post : jstring) :
  lang keywordName i w ->
  exists kw s0 t', In kw keywords /\ w ++ post = kw ++ s0 :: t'
                   /\ is_space s0 = true.
Proof.
  intros (kw & w2 & -> & Hkw & (sp & w3 & -> & Hsp & _)).
  apply lang_keyword_alternatives in Hkw.
  apply lang_Plus in Hsp as [Hn Hsp].
  destruct sp as [|s0 sp]; [contradiction|]. simpl in Hsp.
  apply andb_true_iff in Hsp as [Hs0 _].
  exists kw, s0, (sp ++ w3 ++ post). split; [exact Hkw|].
  split; [|exact Hs0]. now rewrite <- !app_assoc.
Qed.

(** Where the second alternative matches, an identifier, whitespace and
    then [=] or [:] stand. *)
Lemma assignTarget_shape (i : nat) (w post : jstring) :
  lang assignTarget i w ->
  exists idw sp d t',
    w ++ post = idw ++ sp ++ d :: t'
    /\ idw <> [] /\ forallb is_word idw = true
    /\ forallb is_space sp = true /\ (d = chr "=" \/ d = chr ":").
Proof.
  intros (idw & w2 & -> & Hid & (sp & w3 & -> & Hsp & Hd)).
  apply lang_Plus in Hid as [Hn Hid]. simpl in Hsp.
  assert (Hd' : exists d t', w3 = d :: t' /\ (d = chr "=" \/ d = chr ":")).
  { destruct Hd as [(a & b & -> & Ha & _) | (a & b & -> & Ha & _)];
      apply lang_Lit in Ha; subst a; eexists _, _; split;
      try reflexivity; auto. }
  destruct Hd' as (d & t' & -> & Hd').
  exists idw, sp, d, (t' ++ post). rewrite <- !app_assoc. auto.
Qed.

Lemma no_match_at_space (s0 : char) (t : jstring) (i : nat) :
  is_space s0 = true ->
  forall w post, s0 :: t = w ++ post -> ~ lang namePattern i w.
Proof.
  intros Hs w post Ht [Hk | Ha].
  - apply (keywordName_shape i w post) in Hk
      as (kw & s1 & t' & Hkw & Hw & _).
    apply keywords_are_words in Hkw as [Hn Hword].
    destruct kw as [|k0 kw]; [contradiction|]. rewrite <- Ht in Hw.
    injection Hw as -> _. simpl in Hword.
    apply andb_true_iff in Hword as [Hk0 _].
    apply word_not_space in Hk0. congruence.
  - apply (assignTarget_shape i w post) in Ha
      as (idw & sp & d & t' & Hw & Hn & Hword & _).
    destruct idw as [|a idw]; [contradiction|]. rewrite <- Ht in Hw.
    injection Hw as -> _. simpl in Hword.
    apply andb_true_iff in Hword as [Ha _].
    apply word_not_space in Ha. congruence.
Qed.

Lemma no_match_in_word (L sps U : jstring) (i : nat) :
  forallb is_word L = true -> ~ In L keywords ->
  match sps with [] => False | _ => forallb is_space sps = true end ->
  match U with [] => False | u :: _ => is_word u = true end ->
  forall w post, L ++ sps ++ U = w ++ post -> ~ lang namePattern i w.
Proof.
  intros HL Hnk Hsps HU w post Ht.
  destruct sps as [|s1 sps]; [contradiction|].
  destruct U as [|u U]; [contradiction|].
  assert (Hs1 : is_space s1 = true).
  { simpl in Hsps. now apply andb_true_iff in Hsps as [? _]. }
  assert (HtakeL : takeWhile is_word (L ++ (s1 :: sps) ++ u :: U) = L
                   /\ dropWhile is_word (L ++ (s1 :: sps) ++ u :: U)
                      = (s1 :: sps) ++ u :: U).
  { apply takeWhile_app_stop; [exact HL|]. simpl. now apply space_not_word. }
  intros [Hk | Ha].
  - apply (keywordName_shape i w post) in Hk
      as (kw & s0 & t' & Hkw & Hw & Hs0).
    destruct (keywords_are_words kw Hkw) as [_ Hword].
    assert (Htake : takeWhile is_word (kw ++ s0 :: t') = kw).
    { apply takeWhile_app_stop; [exact Hword|]. now apply space_not_word. }
    rewrite <- Hw, <- Ht in Htake. destruct HtakeL as [HtL _].
    rewrite HtL in Htake. now subst L.
  - apply (assignTarget_shape i w post) in Ha
      as (idw & sp & d & t' & Hw & Hn & Hword & Hsp & Hd).
    assert (Hdns : is_space d = false /\ is_word d = false).
    { destruct Hd as [-> | ->]; split; reflexivity. }
    assert (Htake : takeWhile is_word (idw ++ sp ++ d :: t') = idw
                    /\ dropWhile is_word (idw ++ sp ++ d :: t') = sp ++ d :: t').
    { apply takeWhile_app_stop; [exact Hword|].
      destruct sp as [|s0 sp]; simpl; [tauto|].
      simpl in Hsp. apply andb_true_iff in Hsp as [Hs0 _].
      now apply space_not_word. }
    rewrite <- Hw, <- Ht in Htake. destruct HtakeL as [_ HdL].
    destruct Htake as [_ Hdrop]. rewrite HdL in Hdrop.
    assert (H1 : dropWhile is_space ((s1 :: sps) ++ u :: U) = u :: U).
    { apply takeWhile_app_stop; [exact Hsps|]. now apply word_not_space. }
    assert (H2 : dropWhile is_space (sp ++ d :: t') = d :: t').
    { apply takeWhile_app_stop; [exact Hsp | tauto]. }
    rewrite Hdrop, H2 in H1. injection H1 as -> _. destruct Hdns. congruence.
Qed.

Lemma matcher_None {R : Type} (r : regex) (i : nat) (s : jstring)
    (c : captures) (k : continuation R) :
  (forall w post, s = w ++ post -> ~ lang r i w) -> matcher r i s c k = None.
Proof.
  intro Hno. destruct (matcher r i s c k) as [res|] eqn:Hm; [|reflexivity].
  exfalso. apply matcher_sound in Hm as (w & s' & c' & Hs & Hc & _).
  apply (Hno w s' Hs). eapply captured_lang. exact Hc.
Qed.

Lemma exec_from_skip1 (r : regex) (pos : nat) (a : char) (t : jstring) :
  (forall w post, a :: t = w ++ post -> ~ lang r pos w) ->
  exec_from r pos (a :: t) = exec_from r (S pos) t.
Proof.
  intro Hno. rewrite exec_from_unfold.
  now rewrite (matcher_None r pos (a :: t) [] _ Hno).
Qed.

Lemma skip_spaces (ws t : jstring) : forall pos,
  forallb is_space ws = true ->
  exec_from namePattern pos (ws ++ t)
  = exec_from namePattern (pos + length ws) t.
Proof.
  induction ws as [|a ws IH]; intros pos Hws; cbn [app length].
  - now rewrite Nat.add_0_r.
  - simpl in Hws. apply andb_true_iff in Hws as [Ha Hws].
    rewrite exec_from_skip1 by (now apply no_match_at_space).
    rewrite IH by exact Hws. f_equal. lia.
Qed.

Lemma skip_word (L sps U : jstring) : forall pos,
  forallb is_word L = true -> tailsAvoidKeywords L = true ->
  match sps with [] => False | _ => forallb is_space sps = true end ->
  match U with [] => False | u :: _ => is_word u = true end ->
  exec_from namePattern pos (L ++ sps ++ U)
  = exec_from namePattern (pos + length L + length sps) U.
Proof.
  induction L as [|a L IH]; intros pos HL Hav Hsps HU.
  - cbn [app length]. rewrite Nat.add_0_r. apply skip_spaces.
    destruct sps; [contradiction | exact Hsps].
  - cbn [tailsAvoidKeywords] in Hav. apply andb_true_iff in Hav as [Hnk Hav].
    pose proof HL as HL'. simpl in HL'. apply andb_true_iff in HL' as [_ HL'].
    change ((a :: L) ++ sps ++ U) with (a :: (L ++ sps ++ U)).
    rewrite exec_from_skip1.
    + rewrite IH by assumption. f_equal. cbn [length]. lia.
    + apply (no_match_in_word (a :: L) sps U pos HL); try assumption.
      intro Hin. apply negb_true_iff in Hnk.
      assert (existsb (jstring_eqb (a :: L)) keywords = true); [|congruence].
      apply existsb_exists. exists (a :: L). split; [exact Hin|].
      now apply jstring_eqb_eq.
Qed.

Lemma skip_modifier (word : string) (M U : jstring) (pos : nat) :
  forallb is_word (str word) = true ->
  tailsAvoidKeywords (str word) = true ->
  modifier word M ->
  match U with [] => False | u :: _ => is_word u = true end ->
  exec_from namePattern pos (M ++ U)
  = exec_from namePattern (pos + length M) U.
Proof.
  intros Hw Hav [-> | (sp & -> & Hn & Hsp)] HU.
  - cbn [app length]. now rewrite Nat.add_0_r.
  - rewrite <- app_assoc, skip_word; try assumption.
    + f_equal. rewrite length_app. lia.
    + destruct sp; [contradiction | exact Hsp].
Qed.

(** Greedy quantifiers whose continuation accepts after the longest run
    return what the continuation returns there. *)
Lemma star_greedy {R : Type} (p : char -> bool) (rest : jstring)
    (k : continuation R) (c : captures) (res : R) : forall w i,
  forallb p w = true ->
  match rest with [] => True | a :: _ => p a = false end ->
  k (i + length w) rest c = Some res ->
  star p i (w ++ rest) c k = Some res.
Proof.
  induction w as [|a w IH]; intros i Hw Hrest Hk.
  - cbn [app length] in *. rewrite Nat.add_0_r in Hk.
    destruct rest as [|b rest]; cbn [star]; [exact Hk|]. now rewrite Hrest.
  - simpl in Hw. apply andb_true_iff in Hw as [Ha Hw].
    cbn [app star]. rewrite Ha. rewrite (IH (S i)); auto.
    cbn [length] in Hk. now rewrite Nat.add_succ_r in Hk.
Qed.

Lemma plus_greedy {R : Type} (p : char -> bool) (w rest : jstring)
    (k : continuation R) (c : captures) (res : R) (i : nat) :
  w <> [] -> forallb p w = true ->
  match rest with [] => True | a :: _ => p a = false end ->
  k (i + length w) rest c = Some res ->
  matcher (Plus p) i (w ++ rest) c k = Some res.
Proof.
  intros Hn Hw Hrest Hk. destruct w as [|a w]; [contradiction|].
  simpl in Hw. apply andb_true_iff in Hw as [Ha Hw].
  unfold Plus. cbn [matcher app]. rewrite Ha.
  apply star_greedy; auto. cbn [length] in Hk.
  now rewrite Nat.add_succ_r in Hk.
Qed.

Lemma matcher_literal {R : Type} (t : jstring) (c : captures)
    (k : continuation R) : forall l i,
  matcher (fold_right (fun a r => Seq (Chr a) r) Eps l) i (l ++ t) c k
  = k (i + length l) t c.
Proof.
  induction l as [|a l IH]; intro i; cbn [fold_right matcher app length].
  - now rewrite Nat.add_0_r.
  - unfold char_eqb. rewrite N.eqb_refl, IH. now rewrite Nat.add_succ_r.
Qed.

Lemma matcher_keyword {R : Type} (kw t : jstring) (c : captures)
    (k : continuation R) (i : nat) (res : R) :
  In kw keywords -> k (i + length kw) t c = Some res ->
  matcher (Alt (Alt (Alt (Lit "function") (Lit "const")) (Lit "let"))
               (Lit "var")) i (kw ++ t) c k = Some res.
Proof.
  intros [<- | [<- | [<- | [<- | []]]]] Hk; cbn [matcher].
  - unfold Lit at 1. rewrite matcher_literal, Hk. reflexivity.
  - replace (matcher (Lit "function") i (str "const" ++ t) c k)
      with (@None R) by reflexivity.
    unfold Lit at 1. rewrite matcher_literal, Hk. reflexivity.
  - replace (matcher (Lit "function") i (str "let" ++ t) c k)
      with (@None R) by reflexivity.
    replace (matcher (Lit "const") i (str "let" ++ t) c k)
      with (@None R) by reflexivity.
    unfold Lit at 1. rewrite matcher_literal, Hk. reflexivity.
  - replace (matcher (Lit "function") i (str "var" ++ t) c k)
      with (@None R) by reflexivity.
    replace (matcher (Lit "const") i (str "var" ++ t) c k)
      with (@None R) by reflexivity.
    replace (matcher (Lit "let") i (str "var" ++ t) c k)
      with (@None R) by reflexivity.
    unfold Lit at 1. rewrite matcher_literal, Hk. reflexivity.
Qed.

(** At a keyword followed by whitespace and an identifier, the name pattern
    matches by its first alternative and captures the whole identifier. *)
Lemma matcher_declaration (kw sp id rest : jstring) (i : nat) :
  In kw keywords ->
  sp <> [] -> forallb is_space sp = true ->
  id <> [] -> forallb is_word id = true ->
  match rest with [] => True | a :: _ => is_word a = false end ->
  matcher namePattern i (kw ++ sp ++ id ++ rest) []
    (fun j _ c => Some (j, c))
  = Some (i + length kw + length sp + length id, [(1, id)]).
Proof.
  intros Hkw Hsn Hsp Hin Hid Hrest.
  unfold namePattern. cbn [matcher].
  assert (H : matcher keywordName i (kw ++ sp ++ id ++ rest) []
                (fun j _ c => Some (j, c))
              = Some (i + length kw + length sp + length id, [(1, id)])).
  { unfold keywordName. cbn [matcher]. apply matcher_keyword; [exact Hkw|].
    apply plus_greedy; [exact Hsn | exact Hsp | |].
    - destruct id as [|a id]; [contradiction|]. simpl in Hid.
      apply andb_true_iff in Hid as [Ha _]. simpl. now apply word_not_space.
    - apply plus_greedy; [exact Hin | exact Hid | exact Hrest |].
      replace (i + length kw + length sp + length id
               - (i + length kw + length sp)) with (length id) by lia.
      rewrite firstn_app, Nat.sub_diag, firstn_all. cbn [firstn].
      now rewrite app_nil_r. }
  now rewrite H.
Qed.

Lemma declares_head_is_word (A kw t : jstring) :
  modifier "async" A -> In kw keywords ->
  match A ++ kw ++ t with [] => False | u :: _ => is_word u = true end.
Proof.
  intros [-> | (sp & -> & _)] Hkw.
  - destruct Hkw as [<- | [<- | [<- | [<- | []]]]]; reflexivity.
  - reflexivity.
Qed.

(** The name of a text that begins with a declaration. *)
Lemma extractName_declares (text id : jstring) :
  declares text id -> extractName text = JStr id.
Proof.
  intros (ws & E & A & kw & sp & rest & -> & Hws & HE & HA & Hkw & Hsn & Hsp
          & Hin & Hid & Hrest).
  unfold extractName, exec.
  rewrite skip_spaces by exact Hws.
  rewrite (skip_modifier "export" E (A ++ kw ++ sp ++ id ++ rest) _
             eq_refl eq_refl HE
             (declares_head_is_word A kw (sp ++ id ++ rest) HA Hkw)).
  rewrite (skip_modifier "async" A (kw ++ sp ++ id ++ rest) _
             eq_refl eq_refl HA
             (declares_head_is_word [] kw (sp ++ id ++ rest)
                (or_introl eq_refl) Hkw)).
  rewrite exec_from_unfold, matcher_declaration by assumption.
  unfold group. cbn [groups capture Nat.eqb js_or].
  destruct id; [contradiction | reflexivity].
Qed.

Lemma dropWhile_head (p : char -> bool) (s : jstring) :
  match dropWhile p s with [] => True | c :: _ => p c = false end.
Proof.
  induction s as [|a s IH]; [exact I|]. simpl.
  destruct (p a) eqn:Ha; [exact IH | exact Ha].
Qed.

Lemma lang_modifier (word : string) (i : nat) (w : jstring) :
  lang (Opt (Seq (Lit word) (Plus is_space))) i w -> modifier word w.
Proof.
  intros [(a & b & -> & Ha & Hb) | ->]; [right | now left].
  apply lang_Lit in Ha. apply lang_Plus in Hb as [Hn Hb]. subst a. eauto.
Qed.

Lemma declares_intro (ws E A kw sp id0 tail : jstring) :
  forallb is_space ws = true -> modifier "export" E -> modifier "async" A ->
  In kw keywords ->
  sp <> [] /\ forallb is_space sp = true ->
  id0 <> [] /\ forallb is_word id0 = true ->
  declares (ws ++ E ++ A ++ kw ++ sp ++ id0 ++ tail)
           (id0 ++ takeWhile is_word tail).
Proof.
  intros Hws HE HA Hkw [Hsn Hsp] [Hin Hid].
  exists ws, E, A, kw, sp, (dropWhile is_word tail).
  split.
  - rewrite <- (app_assoc id0), takeWhile_dropWhile. reflexivity.
  - repeat split; auto.
    + destruct id0; [contradiction | discriminate].
    + now rewrite forallb_app, Hid, takeWhile_all.
    + apply dropWhile_head.
Qed.

(** A line a declaration pattern matches begins with a declaration. *)
Lemma declarationLine_declares (lineText : jstring) :
  declarationLine lineText -> exists id, declares lineText id.
Proof.
  intros [(pre & w & post & -> & Hl) | (pre & w & post & -> & Hl)].
  - destruct Hl as (w0 & w1 & -> & [Hpre ->] & Hl).
    destruct pre; [|discriminate]. cbn [app] in *.
    destruct Hl as (ws & w2 & -> & Hws & Hl).
    destruct Hl as (E & w3 & -> & HE & Hl).
    destruct Hl as (kw & w4 & -> & Hkw & Hl).
    destruct Hl as (sp & w5 & -> & Hsp & Hl).
    destruct Hl as (id0 & w6 & -> & Hid & _).
    exists (id0 ++ takeWhile is_word (w6 ++ post)).
    rewrite <- !app_assoc.
    apply (declares_intro ws E [] kw sp id0 (w6 ++ post)).
    + exact Hws.
    + apply (lang_modifier "export" 0 E). exact HE.
    + now left.
    + destruct Hkw as [[[H | H] | H] | H]; apply lang_Lit in H; subst;
        simpl; auto.
    + now apply lang_Plus in Hsp.
    + now apply lang_Plus in Hid.
  - destruct Hl as (w0 & w1 & -> & [Hpre ->] & Hl).
    destruct pre; [|discriminate]. cbn [app] in *.
    destruct Hl as (ws & w2 & -> & Hws & Hl).
    destruct Hl as (E & w3 & -> & HE & Hl).
    destruct Hl as (A & w4 & -> & HA & Hl).
    destruct Hl as (kw & w5 & -> & Hkw & Hl).
    destruct Hl as (sp & w6 & -> & Hsp & Hl).
    destruct Hl as (id0 & w7 & -> & Hid & _).
    exists (id0 ++ takeWhile is_word (w7 ++ post)).
    rewrite <- !app_assoc.
    apply (declares_intro ws E A kw sp id0 (w7 ++ post)).
    + exact Hws.
    + apply (lang_modifier "export" 0 E). exact HE.
    + apply (lang_modifier "async" 0 A). exact HA.
    + apply lang_Lit in Hkw. subst. simpl. auto.
    + now apply lang_Plus in Hsp.
    + now apply lang_Plus in Hid.
Qed.

Lemma declares_line (lineText id more : jstring) :
  declares lineText id -> declares (lineText ++ nl :: more) id.
Proof.
  intros (ws & E & A & kw & sp & rest & -> & H).
  exists ws, E, A, kw, sp, (rest ++ nl :: more).
  split; [now rewrite <- !app_assoc|].
  destruct H as (H1 & H2 & H3 & H4 & H5 & H6 & H7 & H8 & H9).
  repeat split; auto. destruct rest; [reflexivity | exact H9].
Qed.

(** What a result of the locator is made of. *)
Lemma detect_Some_inv (document : TextDocument) (cursorLine : nat)
    (functionInfo : FunctionInfo) (startLine : nat) :
  detectFunctionAtCursor document cursorLine
    = Returns (Some (functionInfo, startLine)) ->
  exists lineText more,
    nth_error document startLine = Some lineText
    /\ declarationLine lineText
    /\ body functionInfo = lineText ++ nl :: more
    /\ parseFunctionFromText (body functionInfo) = Returns functionInfo.
Proof.
  intro Hd.
  destruct (Nat.le_gt_cases (lineCount document) cursorLine) as [Hle | Hgt].
  { rewrite (detect_throws_outside document cursorLine Hle) in Hd.
    discriminate. }
  destruct (detect_start_is_nearest_declaration document cursorLine
              functionInfo startLine Hd)
    as (_ & _ & _ & l & more & Hl & Hdecl & Hbody).
  exists l, more. split; [exact Hl|]. split; [exact Hdecl|].
  split; [exact Hbody|].
  unfold detectFunctionAtCursor in Hd.
  destruct (searchBackwards document (lookback cursorLine) cursorLine cursorLine)
    as [|[s' [|]]]; cbn [bind negb] in Hd; try discriminate.
  destruct (findFunctionEnd document s') as [|scan]; cbn [bind] in Hd;
    try discriminate.
  destruct (parseFunctionFromText (functionText (final scan))) as [|fi] eqn:Hp;
    cbn [bind] in Hd; try discriminate.
  injection Hd as -> _.
  destruct (parse_returns (functionText (final scan))) as (ps & Hp').
  rewrite Hp' in Hp. injection Hp as <-. cbn [body]. exact Hp'.
Qed.

(** X8: for a text that begins with a declaration (whitespace, an optional
    [export], an optional [async], [function], [const], [let] or [var],
    whitespace, an identifier), the extractor's name is that identifier. *)
Theorem extractor_names_declared_identifier (text id : jstring) :
  declares text id ->
  exists functionInfo,
    parseFunctionFromText text = Returns functionInfo
    /\ name functionInfo = JStr id.
Proof.
  intro Hdecl. destruct (parse_returns text) as (ps & Hp).
  eexists. split; [exact Hp|]. cbn [name].
  now apply extractName_declares.
Qed.

Lemma extractor_names_declared_identifier_witness :
  exists functionInfo,
    parseFunctionFromText (str "export async function fetchAll (urls) {")
      = Returns functionInfo
    /\ name functionInfo = JStr (str "fetchAll").
Proof.
  apply extractor_names_declared_identifier.
  exists [], (str "export "), (str "async "), (str "function"), (str " "),
    (str " (urls) {").
  split; [reflexivity|]. split; [reflexivity|].
  split; [right; exists (str " "); repeat split; discriminate|].
  split; [right; exists (str " "); repeat split; discriminate|].
  split; [simpl; auto|].
  repeat split; discriminate.
Defined.

(** X9: the name in a result of the locator is the identifier declared on
    the start line. *)
Theorem locator_names_declared_identifier
    (document : TextDocument) (cursorLine : nat)
    (functionInfo : FunctionInfo) (startLine : nat) :
  detectFunctionAtCursor document cursorLine
    = Returns (Some (functionInfo, startLine)) ->
  exists lineText id,
    nth_error document startLine = Some lineText
    /\ declares lineText id
    /\ name functionInfo = JStr id.
Proof.
  intro Hd.
  destruct (detect_Some_inv document cursorLine functionInfo startLine Hd)
    as (l & more & Hl & Hdecl & Hbody & Hparse).
  destruct (declarationLine_declares l Hdecl) as (id & Hid).
  exists l, id. split; [exact Hl|]. split; [exact Hid|].
  destruct (parse_returns (body functionInfo)) as (ps & Hp).
  rewrite Hp in Hparse. injection Hparse as Hfi. rewrite <- Hfi at 1.
  cbn [name]. apply extractName_declares. rewrite Hbody.
  now apply declares_line.
Qed.

Lemma locator_names_declared_identifier_witness :
  exists lineText id,
    nth_error twoFunctions 3 = Some lineText
    /\ declares lineText id
    /\ name {| name := JStr (str "size"); params := [str "s"];
               returnType := JStr (str "number");
               body := joinLines (skipn 3 twoFunctions) |} = JStr id.
Proof.
  apply (locator_names_declared_identifier twoFunctions 4).
  vm_compute. reflexivity.
Defined.

(** ** The parameters of a declaration *)

Lemma lang_paramsPattern (i : nat) (inner : jstring) :
  forallb (is_not ")") inner = true ->
  lang paramsPattern i (str "(" ++ inner ++ str ")").
Proof.
  intro Hin. exists (str "("), (inner ++ str ")").
  split; [reflexivity|]. split; [now apply lang_Lit|].
  exists inner, (str ")"). split; [reflexivity|]. split; [exact Hin|].
  now apply lang_Lit.
Qed.

Lemma takeWhile_fixed (p : char -> bool) (s : jstring) :
  forallb p s = true -> takeWhile p s = s.
Proof.
  induction s as [|a s IH]; [reflexivity|]. simpl. intro H.
  apply andb_true_iff in H as [-> Hs]. now rewrite IH.
Qed.

(** The extractor reads the parameters between the first opening
    parenthesis and the first closing parenthesis after it. *)
Lemma parse_first_group (head inner tail : jstring) :
  forallb (is_not "(") head = true ->
  forallb (is_not ")") inner = true ->
  parseFunctionFromText (head ++ str "(" ++ inner ++ str ")" ++ tail)
  = Returns {| name := extractName (head ++ str "(" ++ inner ++ str ")" ++ tail);
               params := paramsOf inner;
               returnType :=
                 extractReturnType (head ++ str "(" ++ inner ++ str ")" ++ tail);
               body := head ++ str "(" ++ inner ++ str ")" ++ tail |}.
Proof.
  intros Hhead Hinner.
  set (text := head ++ str "(" ++ inner ++ str ")" ++ tail).
  assert (Hocc : text = head ++ (str "(" ++ inner ++ str ")") ++ tail).
  { unfold text. now rewrite <- !app_assoc. }
  destruct (parse_params text)
    as (inner' & Hin' & [[Hnone _] | (pre & post & Ht & Hleft)] & Hp).
  { exfalso. apply exec_None_iff in Hnone. apply Hnone.
    exists head, (str "(" ++ inner ++ str ")"), tail.
    split; [exact Hocc|]. now apply lang_paramsPattern. }
  assert (Hle : length pre <= length head).
  { apply (Hleft head (str "(" ++ inner ++ str ")") tail Hocc).
    now apply lang_paramsPattern. }
  assert (Heq : pre = head /\ inner' ++ str ")" ++ post
                              = inner ++ str ")" ++ tail).
  { unfold text in Ht. symmetry in Ht.
    apply app_eq_app in Ht as (l & [[-> Hl] | [-> Hl]]).
    - rewrite length_app in Hle. destruct l; [|simpl in Hle; lia].
      rewrite app_nil_r. cbn [app] in Hl. now injection Hl.
    - destruct l as [|c l].
      + rewrite app_nil_r. cbn [app] in Hl. now injection Hl.
      + exfalso. cbn [app str] in Hl. injection Hl as <- _.
        rewrite forallb_app in Hhead. cbn in Hhead.
        now rewrite andb_false_r in Hhead. }
  destruct Heq as [_ Heq].
  assert (Hsame : inner' = inner).
  { assert (H1 : takeWhile (is_not ")") (inner' ++ str ")" ++ post) = inner').
    { apply takeWhile_app_stop; [exact Hin' | reflexivity]. }
    assert (H2 : takeWhile (is_not ")") (inner ++ str ")" ++ tail) = inner).
    { apply takeWhile_app_stop; [exact Hinner | reflexivity]. }
    congruence. }
  now rewrite Hp, Hsame.
Qed.

Lemma split_at_first (c : char) (s : jstring) :
  In c s ->
  exists tail, s = takeWhile (fun x => negb (char_eqb x c)) s ++ c :: tail.
Proof.
  induction s as [|a s IH]; [contradiction|]. intros [-> | Hin]; simpl.
  - unfold char_eqb. rewrite N.eqb_refl. simpl. eauto.
  - destruct (char_eqb a c) eqn:Ha; simpl.
    + apply N.eqb_eq in Ha. subst a. eauto.
    + destruct (IH Hin) as (tail & Htail). exists tail. now rewrite <- Htail.
Qed.

(** A line a declaration pattern matches holds an opening parenthesis and
    a closing one after it. *)
Lemma declarationLine_parentheses (lineText : jstring) :
  declarationLine lineText ->
  exists X Z, lineText = X ++ chr "(" :: Z /\ In (chr ")") Z.
Proof.
  intros [(pre & w & post & -> & Hl) | (pre & w & post & -> & Hl)].
  - destruct Hl as (w0 & w1 & -> & _ & Hl).
    destruct Hl as (ws & w2 & -> & _ & Hl).
    destruct Hl as (E & w3 & -> & _ & Hl).
    destruct Hl as (kw & w4 & -> & _ & Hl).
    destruct Hl as (sp & w5 & -> & _ & Hl).
    destruct Hl as (id0 & w6 & -> & _ & Hl).
    destruct Hl as (s1 & w7 & -> & _ & Hl).
    destruct Hl as (eq & w8 & -> & _ & Hl).
    destruct Hl as (s2 & w9 & -> & _ & Hl).
    destruct Hl as (as' & w10 & -> & _ & Hl).
    destruct Hl as (lp & w11 & -> & Hlp & Hl).
    destruct Hl as (inner & w12 & -> & _ & Hl).
    destruct Hl as (rp & w13 & -> & Hrp & _).
    apply lang_Lit in Hlp, Hrp. subst lp rp.
    exists (pre ++ w0 ++ ws ++ E ++ kw ++ sp ++ id0 ++ s1 ++ eq ++ s2 ++ as'),
      (inner ++ chr ")" :: w13 ++ post).
    split; [now rewrite <- !app_assoc|].
    apply in_or_app. right. now left.
  - destruct Hl as (w0 & w1 & -> & _ & Hl).
    destruct Hl as (ws & w2 & -> & _ & Hl).
    destruct Hl as (E & w3 & -> & _ & Hl).
    destruct Hl as (A & w4 & -> & _ & Hl).
    destruct Hl as (kw & w5 & -> & _ & Hl).
    destruct Hl as (sp & w6 & -> & _ & Hl).
    destruct Hl as (id0 & w7 & -> & _ & Hl).
    destruct Hl as (s1 & w8 & -> & _ & Hl).
    destruct Hl as (lp & w9 & -> & Hlp & Hl).
    destruct Hl as (inner & rp & -> & _ & Hrp).
    apply lang_Lit in Hlp, Hrp. subst lp rp.
    exists (pre ++ w0 ++ ws ++ E ++ A ++ kw ++ sp ++ id0 ++ s1),
      (inner ++ str ")" ++ post).
    split; [now rewrite <- !app_assoc|].
    apply in_or_app. right. now left.
Qed.

Lemma declarationLine_group (lineText : jstring) :
  declarationLine lineText ->
  exists head inner tail,
    lineText = head ++ str "(" ++ inner ++ str ")" ++ tail
    /\ forallb (is_not "(") head = true
    /\ forallb (is_not ")") inner = true.
Proof.
  intro Hd. destruct (declarationLine_parentheses lineText Hd)
    as (X & Z & Hline & Hin).
  assert (Hopen : In (chr "(") lineText).
  { rewrite Hline. apply in_or_app. right. now left. }
  destruct (split_at_first (chr "(") lineText Hopen) as (r & Hr).
  assert (Hclose : In (chr ")") r).
  { assert (Hhead : forallb (is_not "(") (takeWhile (is_not "(") lineText) = true)
      by apply takeWhile_all.
    fold (is_not "(") in Hr.
    rewrite Hline in Hr at 1.
    apply app_eq_app in Hr as (l & [[HX Hl] | [Htake Hl]]).
    - destruct l as [|c l].
      + cbn [app] in Hl. injection Hl as <-. exact Hin.
      + cbn [app] in Hl. injection Hl as _ ->.
        apply in_or_app. right. right. exact Hin.
    - destruct l as [|c l].
      + cbn [app] in Hl. injection Hl as ->. exact Hin.
      + exfalso. cbn [app] in Hl. injection Hl as <- _.
        rewrite Htake, forallb_app in Hhead. cbn in Hhead.
        now rewrite andb_false_r in Hhead. }
  destruct (split_at_first (chr ")") r Hclose) as (tail & Htail).
  fold (is_not "(") in Hr. fold (is_not ")") in Htail.
  exists (takeWhile (is_not "(") lineText), (takeWhile (is_not ")") r), tail.
  split; [|split; apply takeWhile_all].
  rewrite Hr at 1. cbn [str app]. f_equal. f_equal.
  rewrite Htail at 1. reflexivity.
Qed.

(** X10: the parameters in a result of the locator are read from the
    declaration line itself: from the text between its first opening
    parenthesis and the first closing parenthesis after it. *)
Theorem locator_reads_parameters_of_declaration
    (document : TextDocument) (cursorLine : nat)
    (functionInfo : FunctionInfo) (startLine : nat) :
  detectFunctionAtCursor document cursorLine
    = Returns (Some (functionInfo, startLine)) ->
  exists lineText head inner tail,
    nth_error document startLine = Some lineText
    /\ lineText = head ++ str "(" ++ inner ++ str ")" ++ tail
    /\ forallb (is_not "(") head = true
    /\ forallb (is_not ")") inner = true
    /\ params functionInfo = paramsOf inner.
Proof.
  intro Hd.
  destruct (detect_Some_inv document cursorLine functionInfo startLine Hd)
    as (l & more & Hl & Hdecl & Hbody & Hparse).
  destruct (declarationLine_group l Hdecl) as (head & inner & tail & Hline & Hh & Hi).
  exists l, head, inner, tail. repeat (split; [assumption|]).
  rewrite Hbody, Hline in Hparse. rewrite <- !app_assoc in Hparse.
  change (str ")" ++ tail ++ nl :: more)
    with (str ")" ++ (tail ++ nl :: more)) in Hparse.
  rewrite (parse_first_group head inner (tail ++ nl :: more) Hh Hi) in Hparse.
  injection Hparse as <-. reflexivity.
Qed.

Lemma locator_reads_parameters_of_declaration_witness :
  exists lineText head inner tail,
    nth_error twoFunctions 0 = Some lineText
    /\ lineText = head ++ str "(" ++ inner ++ str ")" ++ tail
    /\ forallb (is_not "(") head = true
    /\ forallb (is_not ")") inner = true
    /\ params {| name := JStr (str "add"); params := [str "a"; str "b"];
                 returnType := JStr (str "number");
                 body := joinLines twoFunctions |} = paramsOf inner.
Proof.
  apply (locator_reads_parameters_of_declaration twoFunctions 1).
  vm_compute. reflexivity.
Defined.

(** ** Parameters as they are written *)

Lemma forallb_weaken (p q : char -> bool) (s : jstring) :
  (forall c, p c = true -> q c = true) ->
  forallb p s = true -> forallb q s = true.
Proof.
  intros Hpq. induction s as [|a s IH]; [reflexivity|]. simpl. intro H.
  apply andb_true_iff in H as [Ha Hs]. now rewrite (Hpq a Ha), IH.
Qed.

Lemma takeWhile_app_all (p : char -> bool) (w x : jstring) :
  forallb p w = true -> takeWhile p (w ++ x) = w ++ takeWhile p x.
Proof.
  induction w as [|a w IH]; [reflexivity|]. simpl. intro H.
  apply andb_true_iff in H as [-> Hw]. now rewrite IH.
Qed.

Lemma trimStart_app_nonspace (a b : jstring) (d : char) :
  is_space d = false -> trimStart (a ++ d :: b) = trimStart a ++ d :: b.
Proof.
  intro Hd. induction a as [|x a IH]; simpl; [now rewrite Hd|].
  destruct (is_space x); [exact IH | reflexivity].
Qed.

Lemma trimEnd_app_nonspace (u t : jstring) (d : char) :
  is_space d = false -> trimEnd (u ++ d :: t) = u ++ d :: trimEnd t.
Proof.
  intro Hd. unfold trimEnd. rewrite rev_app_distr. cbn [rev].
  rewrite <- app_assoc. cbn [app].
  rewrite (trimStart_app_nonspace (rev t) (rev u) d Hd).
  rewrite rev_app_distr. cbn [rev]. rewrite rev_involutive.
  now rewrite <- app_assoc.
Qed.

Lemma word_last_not_space (id : jstring) :
  forallb is_word id = true ->
  match rev id with [] => True | c :: _ => is_space c = false end.
Proof.
  intro H. rewrite <- forallb_rev in H. destruct (rev id) as [|c r]; [exact I|].
  simpl in H. apply andb_true_iff in H as [Hc _]. now apply word_not_space.
Qed.

Lemma trim_word_spaces (id sp : jstring) :
  id <> [] -> forallb is_word id = true -> forallb is_space sp = true ->
  trim (id ++ sp) = id.
Proof.
  intros Hn Hid Hsp. unfold trim.
  rewrite (trimStart_fixed (id ++ sp)).
  - apply trimEnd_word_spaces; [exact Hsp | now apply word_last_not_space].
  - destruct id as [|a id]; [contradiction|]. simpl in *.
    apply andb_true_iff in Hid as [Ha _]. now apply word_not_space.
Qed.

Lemma word_spaces_no (d : char) (id sp : jstring) :
  is_word d = false -> is_space d = false ->
  forallb is_word id = true -> forallb is_space sp = true ->
  forallb (fun c => negb (char_eqb c d)) (id ++ sp) = true.
Proof.
  intros Hw Hs Hid Hsp. rewrite forallb_app. apply andb_true_iff. split.
  - apply (forallb_weaken is_word); [|exact Hid].
    intros c Hc. apply negb_true_iff. destruct (char_eqb c d) eqn:E;
      [|reflexivity]. apply N.eqb_eq in E. congruence.
  - apply (forallb_weaken is_space); [|exact Hsp].
    intros c Hc. apply negb_true_iff. destruct (char_eqb c d) eqn:E;
      [|reflexivity]. apply N.eqb_eq in E. congruence.
Qed.

(** A written parameter is kept by the filter and gives its identifier. *)
Lemma writes_param (piece id : jstring) :
  writes piece id ->
  Nat.ltb 0 (length (trim piece)) = true
  /\ trim (beforeDelimiter (trim piece)) = id.
Proof.
  intros (lead & ann & -> & Hlead & Hn & Hid & Hann & _ & _).
  assert (Hhead : match id ++ ann with
                  | [] => True | c :: _ => is_space c = false end).
  { destruct id as [|a id]; [contradiction|]. simpl in *.
    apply andb_true_iff in Hid as [Ha _]. now apply word_not_space. }
  assert (Hstart : trimStart (lead ++ id ++ ann) = id ++ ann).
  { rewrite trimStart_dropWhile.
    now apply (takeWhile_app_stop is_space lead (id ++ ann)). }
  assert (Hcolon : forallb (fun c => negb (char_eqb c (chr ":"))) (id ++ [])
                   = true)
    by (apply word_spaces_no; auto).
  assert (Hequal : forallb (fun c => negb (char_eqb c (chr "="))) (id ++ [])
                   = true)
    by (apply word_spaces_no; auto).
  rewrite app_nil_r in Hcolon, Hequal.
  unfold trim at 1 3. rewrite Hstart.
  destruct Hann as [Hsp | (sp & d & t & -> & Hsp & Hd)].
  - rewrite (trimEnd_word_spaces id ann Hsp (word_last_not_space id Hid)).
    split; [destruct id; [contradiction | reflexivity]|].
    unfold beforeDelimiter.
    rewrite (takeWhile_fixed _ id Hcolon), (takeWhile_fixed _ id Hequal).
    rewrite <- (app_nil_r id) at 1. now apply trim_word_spaces.
  - assert (Hds : is_space d = false) by (destruct Hd as [-> | ->]; reflexivity).
    rewrite app_assoc, (trimEnd_app_nonspace (id ++ sp) t d Hds).
    split; [destruct id; [contradiction | reflexivity]|].
    assert (H1 : forallb (fun c => negb (char_eqb c (chr ":"))) (id ++ sp) = true)
      by (apply word_spaces_no; auto).
    assert (H2 : forallb (fun c => negb (char_eqb c (chr "="))) (id ++ sp) = true)
      by (apply word_spaces_no; auto).
    assert (Hbefore : beforeDelimiter ((id ++ sp) ++ d :: trimEnd t) = id ++ sp).
    { unfold beforeDelimiter. destruct Hd as [-> | ->].
      - replace (takeWhile (fun c => negb (char_eqb c (chr ":")))
                   ((id ++ sp) ++ chr ":" :: trimEnd t)) with (id ++ sp).
        + now apply takeWhile_fixed.
        + symmetry. now apply takeWhile_app_stop.
      - rewrite (takeWhile_app_all _ (id ++ sp) _ H1).
        cbn [takeWhile]. replace (negb (char_eqb (chr "=") (chr ":"))) with true
          by reflexivity.
        now apply takeWhile_app_stop. }
    rewrite Hbefore. now apply trim_word_spaces.
Qed.

Lemma split_single (sep : char) (p : jstring) :
  forallb (fun c => negb (char_eqb c sep)) p = true -> split sep p = [p].
Proof.
  induction p as [|a p IH]; [reflexivity|]. simpl. intro H.
  apply andb_true_iff in H as [Ha Hp]. apply negb_true_iff in Ha.
  now rewrite Ha, (IH Hp).
Qed.

Lemma split_app_sep (sep : char) (p t : jstring) :
  forallb (fun c => negb (char_eqb c sep)) p = true ->
  split sep (p ++ sep :: t) = p :: split sep t.
Proof.
  induction p as [|a p IH]; simpl; intro H.
  - unfold char_eqb. now rewrite N.eqb_refl.
  - apply andb_true_iff in H as [Ha Hp]. apply negb_true_iff in Ha.
    now rewrite Ha, (IH Hp).
Qed.

Lemma split_join (sep : char) (pieces : list jstring) :
  pieces <> [] ->
  Forall (fun p => forallb (fun c => negb (char_eqb c sep)) p = true) pieces ->
  split sep (join sep pieces) = pieces.
Proof.
  intros Hn Hall. induction Hall as [|p rest Hp Hrest IH]; [contradiction|].
  cbn [join]. destruct rest as [|q rest].
  - now apply split_single.
  - rewrite (split_app_sep sep p _ Hp). f_equal. apply IH. discriminate.
Qed.

Lemma join_forallb (q : char -> bool) (sep : char) (pieces : list jstring) :
  q sep = true -> Forall (fun p => forallb q p = true) pieces ->
  forallb q (join sep pieces) = true.
Proof.
  intros Hsep Hall. induction Hall as [|p rest Hp Hrest IH]; [reflexivity|].
  cbn [join]. destruct rest as [|r rest]; [exact Hp|].
  rewrite forallb_app, Hp. cbn [forallb andb]. now rewrite Hsep, IH.
Qed.

Lemma paramsOf_join (pieces ids : list jstring) :
  Forall2 writes pieces ids -> paramsOf (join (chr ",") pieces) = ids.
Proof.
  intro Hw. destruct pieces as [|p0 pieces0] eqn:Hpieces.
  { inversion Hw. reflexivity. }
  rewrite <- Hpieces in *. unfold paramsOf. rewrite split_join.
  - clear Hpieces. induction Hw as [|p id ps ids' Hp _ IH]; [reflexivity|].
    destruct (writes_param p id Hp) as [Hkeep Hname].
    cbn [map filter]. rewrite Hkeep. cbn [map]. now rewrite Hname, IH.
  - rewrite Hpieces. discriminate.
  - clear Hpieces. induction Hw as [|p id ps ids' Hp _ IH]; constructor;
      [|exact IH].
    destruct Hp as (? & ? & _ & _ & _ & _ & _ & Hc & _). exact Hc.
Qed.

(** X11: a parameter list written as identifiers, each with optional
    whitespace around it and an optional annotation or default value that
    starts with [:] or [=] and holds no comma and no closing parenthesis,
    separated by commas, gives back the identifiers in their order, when no
    opening parenthesis stands before the list. *)
Theorem parameters_round_trip
    (head tail : jstring) (pieces ids : list jstring) :
  forallb (is_not "(") head = true ->
  Forall2 writes pieces ids ->
  exists functionInfo,
    parseFunctionFromText
      (head ++ str "(" ++ join (chr ",") pieces ++ str ")" ++ tail)
    = Returns functionInfo
    /\ params functionInfo = ids.
Proof.
  intros Hhead Hw. eexists. split.
  - apply parse_first_group; [exact Hhead|].
    apply join_forallb; [reflexivity|].
    clear Hhead. induction Hw as [|p id ps ids' Hp _ IH]; constructor;
      [|exact IH].
    destruct Hp as (? & ? & _ & _ & _ & _ & _ & _ & Hc). exact Hc.
  - cbn [params]. now apply paramsOf_join.
Qed.

Lemma parameters_round_trip_witness :
  exists functionInfo,
    parseFunctionFromText
      (str "const mul = " ++ str "("
       ++ join (chr ",") [str "a: number"; str " b = 2"; str " c "]
       ++ str ")" ++ str " => a * b * c;")
    = Returns functionInfo
    /\ params functionInfo = [str "a"; str "b"; str "c"].
Proof.
  apply parameters_round_trip; [reflexivity|].
  constructor; [|constructor; [|constructor; [|constructor]]].
  - exists [], (str ": number"). repeat split; try discriminate.
    right. exists [], (chr ":"), (str " number"). repeat split. now left.
  - exists (str " "), (str " = 2"). repeat split; try discriminate.
    right. exists (str " "), (chr "="), (str " 2"). repeat split. now right.
  - exists (str " "), (str " "). repeat split; try discriminate. now left.
Defined.

(** ** The command *)

Lemma summaryOf_trimmed (response : ChatResponse) :
  summaryOf response <> [] /\ trim (summaryOf response) = summaryOf response.
Proof.
  unfold summaryOf.
  destruct (nth_error (choices response) 0) as [choice|];
    [|split; [discriminate | reflexivity]].
  destruct (message choice) as [m|]; [|split; [discriminate | reflexivity]].
  destruct (responseContent m) as [text|];
    [|split; [discriminate | reflexivity]].
  cbn [or_default]. destruct (trim text) as [|c s] eqn:Ht.
  - split; [discriminate | reflexivity].
  - split; [discriminate|]. rewrite <- Ht. apply trim_idem.
Qed.

(** X12: a summary that [generateSummaryWithChatGPT] returns is never empty
    and has no whitespace at either end, whatever the service answers
    (without a first choice, a message or a content, or with a blank
    content, it is "Generated summary"); it comes from exactly one request,
    made with the configured key, which is not empty, and with the model
    "gpt-4" when none is configured.  Without a key, or with an empty one,
    the call throws and no request is made. *)
Theorem summary_is_trimmed_and_never_empty
    (create : jstring -> ChatRequest -> outcome ChatResponse)
    (config : Configuration) (functionInfo : FunctionInfo) :
  (forall effects summary,
     generateSummaryWithChatGPT create config functionInfo
       = (effects, Returns summary) ->
     summary <> [] /\ trim summary = summary
     /\ exists key,
          openaiApiKey config = JStr key /\ key <> []
          /\ effects =
             [CreateCompletion key
                (summaryRequest (or_default (model config) (str "gpt-4"))
                   functionInfo)])
  /\ (openaiApiKey config = JUndefined \/ openaiApiKey config = JStr [] ->
      generateSummaryWithChatGPT create config functionInfo = ([], Throws))
  /\ (model config = JUndefined \/ model config = JStr [] ->
      or_default (model config) (str "gpt-4") = str "gpt-4").
Proof.
  split; [|split].
  - intros effects summary. unfold generateSummaryWithChatGPT.
    destruct (openaiApiKey config) as [|[|c key]]; try discriminate.
    unfold andThen, emit, lift, done.
    destruct (create (c :: key) _) as [|response]; [discriminate|].
    intro H. injection H as <- <-.
    destruct (summaryOf_trimmed response) as [Hn Ht].
    split; [exact Hn|]. split; [exact Ht|].
    exists (c :: key). split; [reflexivity|]. split; [discriminate|].
    reflexivity.
  - unfold generateSummaryWithChatGPT. intros [-> | ->]; reflexivity.
  - intros [-> | ->]; reflexivity.
Qed.

Lemma summary_is_trimmed_and_never_empty_witness :
  str "Adds two numbers." <> []
  /\ trim (str "Adds two numbers.") = str "Adds two numbers."
  /\ exists key,
       openaiApiKey configured = JStr key /\ key <> []
       /\ [CreateCompletion (str "sk-test")
             (summaryRequest (str "gpt-4") (addSignature []))]
          = [CreateCompletion key
               (summaryRequest (or_default (model configured) (str "gpt-4"))
                  (addSignature []))].
Proof.
  apply (proj1 (summary_is_trimmed_and_never_empty
                  (answering (str "  Adds two numbers. ")) configured
                  (addSignature []))).
  reflexivity.
Defined.

Lemma generateDocumentation_none
    (create : jstring -> ChatRequest -> outcome ChatResponse)
    (config : Configuration) (document : TextDocument) (selection : Selection) :
  isEmpty selection = true ->
  detectFunctionAtCursor document (activeLine selection) = Returns None ->
  generateDocumentation create config document selection
  = ([ShowErrorMessage
        (str "Place cursor on a function or select code to document")],
     Returns tt).
Proof.
  intros He Hd. unfold generateDocumentation. rewrite He, Hd. reflexivity.
Qed.

(** X13: with an empty selection on a line of the document, when no line
    among the cursor line and the 20 lines above it is matched by a
    declaration pattern, the command shows the error message and does
    nothing else: no request is made and no edit is applied, whatever the
    settings and the service. *)
Theorem no_declaration_only_shows_error
    (create : jstring -> ChatRequest -> outcome ChatResponse)
    (config : Configuration) (document : TextDocument) (selection : Selection) :
  isEmpty selection = true ->
  activeLine selection < lineCount document ->
  (forall j lineText,
     activeLine selection - 20 <= j <= activeLine selection ->
     nth_error document j = Some lineText -> ~ declarationLine lineText) ->
  generateDocumentation create config document selection
  = ([ShowErrorMessage
        (str "Place cursor on a function or select code to document")],
     Returns tt).
Proof.
  intros He Hc Hnone. apply generateDocumentation_none; [exact He|].
  destruct (detect_spec document Hc)
    as [[Hd _] | (s & l & _ & _ & Hs & Hl & Hdecl & _)]; [exact Hd|].
  exfalso. exact (Hnone s l Hs Hl Hdecl).
Qed.

Lemma no_declaration_only_shows_error_witness :
  generateDocumentation (answering (str "unused")) configured farDeclaration
    {| isEmpty := true; activeLine := 25; selectionStartLine := 25;
       selectedText := [] |}
  = ([ShowErrorMessage
        (str "Place cursor on a function or select code to document")],
     Returns tt).
Proof.
  apply no_declaration_only_shows_error.
  - reflexivity.
  - unfold lineCount. simpl. lia.
  - cbn [activeLine]. intros j lineText Hj Hn.
    destruct j as [|j]; [lia|].
    unfold farDeclaration in Hn. cbn [nth_error] in Hn.
    apply nth_error_In, repeat_spec in Hn. subst lineText.
    apply not_declaration_by_test; vm_compute; reflexivity.
Defined.



(** X14: with an empty selection, when the locator finds a declaration, a
    non-empty key is configured and the service answers, the command
    inserts the comment at column 0 of the declaration line (not of the
    cursor line), built with the leading whitespace of that line, the
    summary of the answer and the signature found, and then shows the
    success message. *)
Theorem documentation_goes_above_declaration
    (create : jstring -> ChatRequest -> outcome ChatResponse)
    (config : Configuration) (document : TextDocument) (selection : Selection)
    (functionInfo : FunctionInfo) (startLine : nat) (key : jstring)
    (response : ChatResponse) :
  isEmpty selection = true ->
  detectFunctionAtCursor document (activeLine selection)
    = Returns (Some (functionInfo, startLine)) ->
  openaiApiKey config = JStr key -> key <> [] ->
  create key (summaryRequest (or_default (model config) (str "gpt-4"))
                functionInfo) = Returns response ->
  exists lineText,
    nth_error document startLine = Some lineText
    /\ declarationLine lineText
    /\ generateDocumentation create config document selection
       = ([WithProgress Notification (str "Generating documentation...") false;
           CreateCompletion key
             (summaryRequest (or_default (model config) (str "gpt-4"))
                functionInfo);
           ApplyEdit startLine 0
             (buildDoc (takeWhile is_space lineText) (summaryOf response)
                functionInfo);
           ShowInformationMessage (str "Documentation generated successfully!")],
          Returns tt).
Proof.
  intros He Hd Hkey Hn Hc.
  destruct (detect_Some_inv document (activeLine selection) functionInfo
              startLine Hd) as (l & more & Hl & Hdecl & _ & _).
  exists l. split; [exact Hl|]. split; [exact Hdecl|].
  unfold generateDocumentation, generateSummaryWithChatGPT.
  rewrite He, Hd, Hkey. destruct key as [|c key]; [contradiction|].
  cbn [andThen emit lift done app]. rewrite Hc.
  cbn [andThen emit lift done app].
  pose proof (insert_uses_leading_whitespace document startLine
                (summaryOf response) functionInfo) as [Hi _].
  rewrite Hi, Hl. reflexivity.
Qed.

Lemma documentation_goes_above_declaration_witness :
  exists lineText,
    nth_error twoFunctions 3 = Some lineText
    /\ declarationLine lineText
    /\ generateDocumentation (answering (str " Returns the length. "))
         configured twoFunctions
         {| isEmpty := true; activeLine := 4; selectionStartLine := 4;
            selectedText := [] |}
       = ([WithProgress Notification (str "Generating documentation...") false;
           CreateCompletion (str "sk-test")
             (summaryRequest (or_default (model configured) (str "gpt-4"))
                {| name := JStr (str "size"); params := [str "s"];
                   returnType := JStr (str "number");
                   body := joinLines (skipn 3 twoFunctions) |});
           ApplyEdit 3 0
             (buildDoc (takeWhile is_space lineText)
                (summaryOf {| choices :=
                    [ {| message := Some {| responseContent :=
                           Some (str " Returns the length. ") |} |} ] |})
                {| name := JStr (str "size"); params := [str "s"];
                   returnType := JStr (str "number");
                   body := joinLines (skipn 3 twoFunctions) |});
           ShowInformationMessage (str "Documentation generated successfully!")],
          Returns tt).
Proof.
  apply (documentation_goes_above_declaration
           (answering (str " Returns the length. ")) configured twoFunctions
           {| isEmpty := true; activeLine := 4; selectionStartLine := 4;
              selectedText := [] |}
           {| name := JStr (str "size"); params := [str "s"];
              returnType := JStr (str "number");
              body := joinLines (skipn 3 twoFunctions) |} 3 (str "sk-test")).
  - reflexivity.
  - vm_compute. reflexivity.
  - reflexivity.
  - discriminate.
  - reflexivity.
Defined.

(** X15: with a selection, the selected text is never refused: whatever it
    is, a signature is extracted from it, and when a non-empty key is
    configured, the service answers and the first line of the selection is
    a line of the document, the comment is inserted at column 0 of that
    line with its leading whitespace as indentation. *)
Theorem selection_is_documented_at_its_first_line
    (create : jstring -> ChatRequest -> outcome ChatResponse)
    (config : Configuration) (document : TextDocument) (selection : Selection)
    (lineText key : jstring) :
  isEmpty selection = false ->
  nth_error document (selectionStartLine selection) = Some lineText ->
  openaiApiKey config = JStr key -> key <> [] ->
  exists functionInfo,
    parseFunctionFromText (selectedText selection) = Returns functionInfo
    /\ forall response,
         create key (summaryRequest (or_default (model config) (str "gpt-4"))
                       functionInfo) = Returns response ->
         generateDocumentation create config document selection
         = ([WithProgress Notification (str "Generating documentation...") false;
             CreateCompletion key
               (summaryRequest (or_default (model config) (str "gpt-4"))
                  functionInfo);
             ApplyEdit (selectionStartLine selection) 0
               (buildDoc (takeWhile is_space lineText) (summaryOf response)
                  functionInfo);
             ShowInformationMessage
               (str "Documentation generated successfully!")],
            Returns tt).
Proof.
  intros He Hl Hkey Hn.
  destruct (parse_returns (selectedText selection)) as (ps & Hp).
  eexists. split; [exact Hp|]. intros response Hc.
  unfold generateDocumentation, generateSummaryWithChatGPT.
  rewrite He, Hp, Hkey. destruct key as [|c key]; [contradiction|].
  cbn [andThen emit lift done app]. rewrite Hc.
  cbn [andThen emit lift done app].
  pose proof (insert_uses_leading_whitespace document
                (selectionStartLine selection) (summaryOf response)
                {| name := extractName (selectedText selection); params := ps;
                   returnType := extractReturnType (selectedText selection);
                   body := selectedText selection |}) as [Hi _].
  rewrite Hi, Hl. reflexivity.
Qed.

Lemma selection_is_documented_at_its_first_line_witness :
  exists functionInfo,
    parseFunctionFromText (str "x + 1") = Returns functionInfo
    /\ forall response,
         answering (str "Adds one.") (str "sk-test")
           (summaryRequest (or_default (model configured) (str "gpt-4"))
              functionInfo) = Returns response ->
         generateDocumentation (answering (str "Adds one.")) configured
           [str "  y = x + 1"]
           {| isEmpty := false; activeLine := 0; selectionStartLine := 0;
              selectedText := str "x + 1" |}
         = ([WithProgress Notification (str "Generating documentation...") false;
             CreateCompletion (str "sk-test")
               (summaryRequest (or_default (model configured) (str "gpt-4"))
                  functionInfo);
             ApplyEdit 0 0
               (buildDoc (takeWhile is_space (str "  y = x + 1"))
                  (summaryOf response) functionInfo);
             ShowInformationMessage
               (str "Documentation generated successfully!")],
            Returns tt).
Proof.
  apply (selection_is_documented_at_its_first_line
           (answering (str "Adds one.")) configured [str "  y = x + 1"]
           {| isEmpty := false; activeLine := 0; selectionStartLine := 0;
              selectedText := str "x + 1" |}
           (str "  y = x + 1") (str "sk-test")).
  - reflexivity.
  - reflexivity.
  - reflexivity.
  - discriminate.
Defined.


(** ** The return type as it is written *)

Lemma no_return_match_without_paren (c : char) (t : jstring) (i : nat) :
  is_not ")" c = true ->
  forall w post, c :: t = w ++ post -> ~ lang returnPattern i w.
Proof.
  intros Hc w post Ht (l & w2 & -> & Hl & _).
  apply lang_Lit in Hl. subst l. cbn [str app] in Ht.
  injection Ht as -> _. discriminate.
Qed.

Lemma skip_to_paren (head t : jstring) : forall pos,
  forallb (is_not ")") head = true ->
  exec_from returnPattern pos (head ++ t)
  = exec_from returnPattern (pos + length head) t.
Proof.
  induction head as [|a head IH]; intros pos Hh; cbn [app length].
  - now rewrite Nat.add_0_r.
  - simpl in Hh. apply andb_true_iff in Hh as [Ha Hh].
    rewrite exec_from_skip1 by (now apply no_return_match_without_paren).
    rewrite IH by exact Hh. f_equal. lia.
Qed.

(** The type token at the head of a text: an identifier, then either
    nothing that could continue it, or one pair of angle brackets. *)
Lemma matcher_type_token {R : Type} (ty generic rest : jstring)
    (k : continuation R) (c : captures) (res : R) (i : nat) :
  ty <> [] -> forallb is_word ty = true ->
  (generic = []
   /\ match rest with
      | [] => True
      | a :: _ => is_word a = false /\ a <> chr "<"
      end)
  \/ (exists args, generic = str "<" ++ args ++ str ">" /\ args <> []
                   /\ forallb (is_not ">") args = true) ->
  k (i + length (ty ++ generic)) rest c = Some res ->
  matcher (Seq (Plus is_word)
             (Opt (Seq (Lit "<") (Seq (Plus (is_not ">")) (Lit ">")))))
    i (ty ++ generic ++ rest) c k = Some res.
Proof.
  intros Hn Hty Hgen Hk. cbn [matcher].
  destruct Hgen as [[-> Hrest] | (args & -> & Han & Hargs)].
  - cbn [app] in *. rewrite app_nil_r in Hk.
    apply plus_greedy; [exact Hn | exact Hty | |].
    + destruct rest; [exact I | tauto].
    + unfold Opt. cbn [matcher].
      replace (matcher (Lit "<") (i + length ty) rest c _) with (@None R).
      * exact Hk.
      * destruct rest as [|a rest]; [reflexivity|].
        destruct Hrest as [_ Ha]. unfold Lit. cbn [str fold_right matcher].
        destruct (char_eqb a (N_of_ascii "<")) eqn:E; [|reflexivity].
        apply N.eqb_eq in E. now subst a.
  - rewrite <- !app_assoc. apply plus_greedy; [exact Hn | exact Hty | reflexivity|].
    unfold Opt. cbn [matcher]. unfold Lit at 1.
    rewrite matcher_literal.
    rewrite (plus_greedy (is_not ">") args (str ">" ++ rest) _ c res);
      [reflexivity | exact Han | exact Hargs | reflexivity |].
    unfold Lit. rewrite matcher_literal. rewrite <- Hk. f_equal.
    rewrite !length_app. cbn [length str]. lia.
Qed.

Lemma extractReturnType_written (head sp ty generic rest : jstring) :
  forallb (is_not ")") head = true ->
  forallb is_space sp = true ->
  ty <> [] -> forallb is_word ty = true ->
  (generic = []
   /\ match rest with
      | [] => True
      | a :: _ => is_word a = false /\ a <> chr "<"
      end)
  \/ (exists args, generic = str "<" ++ args ++ str ">" /\ args <> []
                   /\ forallb (is_not ">") args = true) ->
  extractReturnType (head ++ str "):" ++ sp ++ ty ++ generic ++ rest)
  = JStr (ty ++ generic).
Proof.
  intros Hh Hsp Hn Hty Hgen. unfold extractReturnType, exec.
  rewrite skip_to_paren by exact Hh. rewrite exec_from_unfold.
  assert (Hm : matcher returnPattern (0 + length head)
                 (str "):" ++ sp ++ ty ++ generic ++ rest) []
                 (fun j _ c => Some (j, c))
               = Some (0 + length head + 2 + length sp + length (ty ++ generic),
                       [(1, ty ++ generic)])).
  { unfold returnPattern. cbn [matcher]. unfold Lit at 1.
    rewrite matcher_literal. cbn [length str].
    apply star_greedy; [exact Hsp | |].
    - destruct ty as [|a ty]; [contradiction|]. simpl in Hty.
      apply andb_true_iff in Hty as [Ha _]. simpl. now apply word_not_space.
    - apply matcher_type_token; [exact Hn | exact Hty | exact Hgen |].
      replace (0 + length head + 2 + length sp + length (ty ++ generic)
               - (0 + length head + 2 + length sp))
        with (length (ty ++ generic)) by lia.
      rewrite app_assoc, firstn_app, Nat.sub_diag, firstn_all. cbn [firstn].
      now rewrite app_nil_r. }
  rewrite Hm. unfold group. cbn [groups capture Nat.eqb]. reflexivity.
Qed.

(** X17: when no closing parenthesis stands before it, the return type
    written after [):] and optional whitespace is what the extractor
    returns: the identifier alone, or the identifier with one pair of angle
    brackets around text that holds no [>]. *)
Theorem return_type_round_trip (head sp ty generic rest : jstring) :
  forallb (is_not ")") head = true ->
  forallb is_space sp = true ->
  ty <> [] -> forallb is_word ty = true ->
  (generic = []
   /\ match rest with
      | [] => True
      | a :: _ => is_word a = false /\ a <> chr "<"
      end)
  \/ (exists args, generic = str "<" ++ args ++ str ">" /\ args <> []
                   /\ forallb (is_not ">") args = true) ->
  exists functionInfo,
    parseFunctionFromText (head ++ str "):" ++ sp ++ ty ++ generic ++ rest)
      = Returns functionInfo
    /\ returnType functionInfo = JStr (ty ++ generic).
Proof.
  intros Hh Hsp Hn Hty Hgen.
  destruct (parse_returns (head ++ str "):" ++ sp ++ ty ++ generic ++ rest))
    as (ps & Hp).
  eexists. split; [exact Hp|]. cbn [returnType].
  now apply extractReturnType_written.
Qed.

Lemma return_type_round_trip_witness :
  exists functionInfo,
    parseFunctionFromText
      (str "async function load(id: string" ++ str "):" ++ str " "
       ++ str "Promise" ++ str "<Item[]>" ++ str " {")
      = Returns functionInfo
    /\ returnType functionInfo = JStr (str "Promise" ++ str "<Item[]>").
Proof.
  apply return_type_round_trip; try reflexivity; try discriminate.
  right. exists (str "Item[]"). repeat split. discriminate.
Defined.

(** ** The cursor on a declaration line *)

Lemma lang_Seq_intro (a b : regex) (i : nat) (w1 w2 : jstring) :
  lang a i w1 -> lang b (i + length w1) w2 -> lang (Seq a b) i (w1 ++ w2).
Proof. intros Ha Hb. exists w1, w2. auto. Qed.

Lemma modifier_lang (word : string) (i : nat) (m : jstring) :
  modifier word m -> lang (Opt (Seq (Lit word) (Plus is_space))) i m.
Proof.
  intros [-> | (sp & -> & Hn & Hsp)]; [now right | left].
  apply lang_Seq_intro; [now apply lang_Lit | now apply lang_Plus].
Qed.

Lemma spaces_no_paren (s : jstring) :
  forallb is_space s = true -> forallb (is_not "(") s = true.
Proof.
  apply forallb_weaken. intros c Hc. unfold is_not. apply negb_true_iff.
  destruct (char_eqb c (chr "(")) eqn:E; [|reflexivity].
  apply N.eqb_eq in E. subst c. discriminate.
Qed.

Lemma word_no_paren (s : jstring) :
  forallb is_word s = true -> forallb (is_not "(") s = true.
Proof.
  apply forallb_weaken. intros c Hc. unfold is_not. apply negb_true_iff.
  destruct (char_eqb c (chr "(")) eqn:E; [|reflexivity].
  apply N.eqb_eq in E. subst c. discriminate.
Qed.

Lemma modifier_no_paren (word : string) (m : jstring) :
  forallb is_word (str word) = true -> modifier word m ->
  forallb (is_not "(") m = true.
Proof.
  intros Hw [-> | (sp & -> & _ & Hsp)]; [reflexivity|].
  now rewrite forallb_app, (word_no_paren _ Hw), (spaces_no_paren _ Hsp).
Qed.

(** The locator on a cursor line that is a declaration line. *)
Lemma detect_on_declaration_line
    (document : TextDocument) (cursorLine : nat)
    (lineText id head inner tail : jstring) :
  nth_error document cursorLine = Some lineText ->
  declarationLine lineText -> declares lineText id ->
  lineText = head ++ str "(" ++ inner ++ str ")" ++ tail ->
  forallb (is_not "(") head = true -> forallb (is_not ")") inner = true ->
  exists functionInfo,
    detectFunctionAtCursor document cursorLine
      = Returns (Some (functionInfo, cursorLine))
    /\ name functionInfo = JStr id
    /\ params functionInfo = paramsOf inner.
Proof.
  intros Hl Hdecl Hid Hline Hhead Hinner.
  assert (Hc : cursorLine < lineCount document).
  { unfold lineCount. apply nth_error_Some. congruence. }
  destruct (detect_spec document Hc)
    as [[_ Hnone] | (s & l & scan & ps & Hs & Hsl & _ & Hnear & _ & _ & Hd)].
  { exfalso. apply (Hnone cursorLine lineText); [lia | exact Hl | exact Hdecl]. }
  assert (s = cursorLine).
  { destruct (Nat.eq_dec s cursorLine) as [E | E]; [exact E|].
    exfalso. apply (Hnear cursorLine lineText); [lia | exact Hl | exact Hdecl]. }
  subst s. eexists. split; [exact Hd|].
  destruct (detect_Some_inv document cursorLine _ cursorLine Hd)
    as (l' & more & Hl' & _ & Hbody & Hparse).
  rewrite Hl in Hl'. injection Hl' as <-. cbn [body] in Hbody, Hparse.
  cbn [name params]. split.
  - rewrite Hbody. apply extractName_declares. now apply declares_line.
  - rewrite Hbody, Hline in Hparse. rewrite <- !app_assoc in Hparse.
    change (str ")" ++ tail ++ nl :: more)
      with (str ")" ++ (tail ++ nl :: more)) in Hparse.
    rewrite (parse_first_group head inner (tail ++ nl :: more) Hhead Hinner)
      in Hparse.
    now injection Hparse.
Qed.

(** X18: with the cursor on a line that is written as whitespace, an
    optional [export], an optional [async], [function], an identifier and a
    parenthesised parameter list without a closing parenthesis inside, the
    locator returns that line as the start line, that identifier as the
    name and the names of that parameter list as the parameters, whatever
    follows. *)
Theorem cursor_on_function_declaration
    (document : TextDocument) (cursorLine : nat)
    (ws E A sp id sp' inner rest : jstring) :
  nth_error document cursorLine
    = Some (ws ++ E ++ A ++ str "function" ++ sp ++ id ++ sp' ++ str "("
            ++ inner ++ str ")" ++ rest) ->
  forallb is_space ws = true ->
  modifier "export" E -> modifier "async" A ->
  sp <> [] -> forallb is_space sp = true ->
  id <> [] -> forallb is_word id = true ->
  forallb is_space sp' = true ->
  forallb (is_not ")") inner = true ->
  exists functionInfo,
    detectFunctionAtCursor document cursorLine
      = Returns (Some (functionInfo, cursorLine))
    /\ name functionInfo = JStr id
    /\ params functionInfo = paramsOf inner.
Proof.
  intros Hl Hws HE HA Hsn Hsp Hin Hid Hsp' Hinner.
  apply (detect_on_declaration_line document cursorLine _ id
           (ws ++ E ++ A ++ str "function" ++ sp ++ id ++ sp') inner rest Hl).
  - right. exists [], (ws ++ E ++ A ++ str "function" ++ sp ++ id ++ sp'
                        ++ str "(" ++ inner ++ str ")"), rest.
    split; [now rewrite <- !app_assoc|].
    unfold patternB.
    apply (lang_Seq_intro Bol _ 0 []); [split; reflexivity|].
    apply lang_Seq_intro; [exact Hws|].
    apply lang_Seq_intro; [exact (modifier_lang "export" 0 E HE)|].
    apply lang_Seq_intro; [exact (modifier_lang "async" 0 A HA)|].
    apply lang_Seq_intro; [now apply lang_Lit|].
    apply lang_Seq_intro; [now apply lang_Plus|].
    apply lang_Seq_intro; [now apply lang_Plus|].
    apply lang_Seq_intro; [exact Hsp'|].
    apply lang_Seq_intro; [now apply lang_Lit|].
    apply lang_Seq_intro; [exact Hinner | now apply lang_Lit].
  - exists ws, E, A, (str "function"), sp,
      (sp' ++ str "(" ++ inner ++ str ")" ++ rest).
    repeat (split; [first [reflexivity | assumption | (simpl; tauto)]|]).
    destruct sp' as [|a sp'']; [reflexivity|]. simpl in Hsp'.
    apply andb_true_iff in Hsp' as [Ha _]. now apply space_not_word.
  - now rewrite <- !app_assoc.
  - rewrite !forallb_app.
    rewrite (spaces_no_paren _ Hws), (modifier_no_paren "export" E eq_refl HE),
      (modifier_no_paren "async" A eq_refl HA), (spaces_no_paren _ Hsp),
      (word_no_paren _ Hid), (spaces_no_paren _ Hsp').
    reflexivity.
  - exact Hinner.
Qed.

Lemma cursor_on_function_declaration_witness :
  exists functionInfo,
    detectFunctionAtCursor twoFunctions 3
      = Returns (Some (functionInfo, 3))
    /\ name functionInfo = JStr (str "size")
    /\ params functionInfo = paramsOf (str "s").
Proof.
  apply (cursor_on_function_declaration twoFunctions 3
           [] [] [] (str " ") (str "size") [] (str "s") (str ": number {"));
    try reflexivity; try discriminate; now left.
Defined.

Lemma keyword_lang_patternA (i : nat) (kw : jstring) :
  In kw keywords ->
  lang (Alt (Alt (Alt (Lit "const") (Lit "function")) (Lit "let")) (Lit "var"))
       i kw.
Proof.
  intros [<- | [<- | [<- | [<- | []]]]].
  - left. left. right. now apply lang_Lit.
  - left. left. left. now apply lang_Lit.
  - left. right. now apply lang_Lit.
  - right. now apply lang_Lit.
Qed.

Lemma keyword_no_paren (kw : jstring) :
  In kw keywords -> forallb (is_not "(") kw = true.
Proof. intros [<- | [<- | [<- | [<- | []]]]]; reflexivity. Qed.

(** X19: with the cursor on a line that is written as whitespace, an
    optional [export], [const], [let], [var] or [function], an identifier,
    [=], an optional [async], a parenthesised parameter list without a
    closing parenthesis inside, an optional [: type] and then [=>] or an
    opening brace, the locator returns that line as the start line, that
    identifier as the name and the names of that parameter list as the
    parameters, whatever follows. *)
Theorem cursor_on_arrow_function
    (document : TextDocument) (cursorLine : nat)
    (ws E kw sp id s1 s2 As inner s4 ann opener rest : jstring) :
  nth_error document cursorLine
    = Some (ws ++ E ++ kw ++ sp ++ id ++ s1 ++ str "=" ++ s2 ++ As ++ str "("
            ++ inner ++ str ")" ++ s4 ++ ann ++ opener ++ rest) ->
  forallb is_space ws = true ->
  modifier "export" E -> In kw keywords ->
  sp <> [] -> forallb is_space sp = true ->
  id <> [] -> forallb is_word id = true ->
  forallb is_space s1 = true -> forallb is_space s2 = true ->
  (As = [] \/ exists s3, As = str "async" ++ s3 /\ forallb is_space s3 = true) ->
  forallb (is_not ")") inner = true ->
  forallb is_space s4 = true ->
  (ann = [] \/ exists s5 ty s6,
                 ann = str ":" ++ s5 ++ ty ++ s6 /\ forallb is_space s5 = true
                 /\ ty <> [] /\ forallb is_word ty = true
                 /\ forallb is_space s6 = true) ->
  (opener = str "=>" \/ opener = str "{") ->
  exists functionInfo,
    detectFunctionAtCursor document cursorLine
      = Returns (Some (functionInfo, cursorLine))
    /\ name functionInfo = JStr id
    /\ params functionInfo = paramsOf inner.
Proof.
  intros Hl Hws HE Hkw Hsn Hsp Hin Hid Hs1 Hs2 HAs Hinner Hs4 Hann Hop.
  apply (detect_on_declaration_line document cursorLine _ id
           (ws ++ E ++ kw ++ sp ++ id ++ s1 ++ str "=" ++ s2 ++ As) inner
           (s4 ++ ann ++ opener ++ rest) Hl).
  - left. exists [], (ws ++ E ++ kw ++ sp ++ id ++ s1 ++ str "=" ++ s2 ++ As
                       ++ str "(" ++ inner ++ str ")" ++ s4 ++ ann ++ opener),
      rest.
    split; [now rewrite <- !app_assoc|].
    unfold patternA.
    apply (lang_Seq_intro Bol _ 0 []); [split; reflexivity|].
    apply lang_Seq_intro; [exact Hws|].
    apply lang_Seq_intro; [exact (modifier_lang "export" 0 E HE)|].
    apply lang_Seq_intro; [now apply keyword_lang_patternA|].
    apply lang_Seq_intro; [now apply lang_Plus|].
    apply lang_Seq_intro; [now apply lang_Plus|].
    apply lang_Seq_intro; [exact Hs1|].
    apply lang_Seq_intro; [left; now apply lang_Lit|].
    apply lang_Seq_intro; [exact Hs2|].
    apply lang_Seq_intro.
    { destruct HAs as [-> | (s3 & -> & Hs3)]; [now right | left].
      apply lang_Seq_intro; [now apply lang_Lit | exact Hs3]. }
    apply lang_Seq_intro; [now apply lang_Lit|].
    apply lang_Seq_intro; [exact Hinner|].
    apply lang_Seq_intro; [now apply lang_Lit|].
    apply lang_Seq_intro; [exact Hs4|].
    apply lang_Seq_intro.
    { destruct Hann as [-> | (s5 & ty & s6 & -> & Hs5 & Hn & Hty & Hs6)];
        [now right | left].
      apply lang_Seq_intro; [now apply lang_Lit|].
      apply lang_Seq_intro; [exact Hs5|].
      apply lang_Seq_intro; [now apply lang_Plus | exact Hs6]. }
    destruct Hop as [-> | ->]; [left | right]; now apply lang_Lit.
  - exists ws, E, [], kw, sp,
      (s1 ++ str "=" ++ s2 ++ As ++ str "(" ++ inner ++ str ")" ++ s4 ++ ann
       ++ opener ++ rest).
    repeat (split; [first [reflexivity | assumption | now left]|]).
    destruct s1 as [|a s1']; [reflexivity|]. simpl in Hs1.
    apply andb_true_iff in Hs1 as [Ha _]. now apply space_not_word.
  - now rewrite <- !app_assoc.
  - rewrite !forallb_app.
    rewrite (spaces_no_paren _ Hws), (modifier_no_paren "export" E eq_refl HE),
      (keyword_no_paren kw Hkw), (spaces_no_paren _ Hsp),
      (word_no_paren _ Hid), (spaces_no_paren _ Hs1), (spaces_no_paren _ Hs2).
    destruct HAs as [-> | (s3 & -> & Hs3)]; [reflexivity|].
    now rewrite forallb_app, (spaces_no_paren _ Hs3).
  - exact Hinner.
Qed.

Lemma cursor_on_arrow_function_witness :
  exists functionInfo,
    detectFunctionAtCursor arrowDocument 3
      = Returns (Some (functionInfo, 3))
    /\ name functionInfo = JStr (str "g")
    /\ params functionInfo = paramsOf (str "y").
Proof.
  apply (cursor_on_arrow_function arrowDocument 3
           [] [] (str "const") (str " ") (str "g") (str " ") (str " ") []
           (str "y") (str " ") [] (str "=>") (str " { return y; };"));
    try reflexivity; try discriminate; try (now left).
  simpl. auto.
Defined.

Lemma parameter_names_are_bare_witness :
  trim (str "b") = str "b"
  /\ forall c, In c (str "b") ->
       c <> chr "," /\ c <> chr ":" /\ c <> chr "=" /\ c <> chr ")".
Proof.
  destruct (parameter_names_are_bare (str "f(a: number, b = 2)"))
    as (functionInfo & Hparse & Hbare).
  apply Hbare.
  assert (H : parseFunctionFromText (str "f(a: number, b = 2)")
              = Returns {| name := JStr (str "unknown");
                           params := [str "a"; str "b"];
                           returnType := JStr (str "void");
                           body := str "f(a: number, b = 2)" |})
    by (vm_compute; reflexivity).
  rewrite H in Hparse. injection Hparse as <-. right. now left.
Defined.

